(** * vault-ctf: the access-control core of [index.js]

    A shallow embedding of the resolvers ([root.login], [root.vaultItems],
    [root.publicVaultItems], [root.searchVault], [root.createVaultItem],
    [root.makeVaultItemPublic]) and of [authMiddleware], followed by the
    properties the specification states about them.

    Modelling choices.
    - JavaScript numbers that the program uses as identifiers, counts and
      timestamps are integers; they are modelled by [Z]. The program's
      own arithmetic ([vault.length + 1], the expiry) stays far below 2^53,
      where it is exact; [parseInt], which can be given any numeral,
      rounds as the language does ([to_number]). [NaN] and the infinities,
      which only [parseInt] can produce here, are [None].
    - A JavaScript string is modelled by the [string] of the bytes of its
      UTF-8 encoding, which is what a string literal of this file denotes.
      On well-formed strings, containing and starting with a string mean
      the same on these bytes as on the characters; only [parseInt], which
      looks for white space, depends on the encoding.
    - The two module-level arrays [users] and [vault] form the state [Db];
      a resolver is a function from a state to a result and a new state, a
      [throw] is the result [Throw] and leaves the state as it is at that
      point.
    - [process.env] and the [jsonwebtoken] package are outside the
      program: they are the fields of the classes [Env] and [Jwt].
    - [console.error] only writes to the log and is left out. *)

From Stdlib Require Import ZArith Ascii String.
From stdpp Require Import base numbers list strings.

(** ** JavaScript prelude *)

Inductive exn : Type :=
| Error (message : string).

Inductive result (A : Type) : Type :=
| Ok (a : A)
| Throw (e : exn).
Arguments Ok {A} a.
Arguments Throw {A} e.

(** A value read out of a token that did not come from this program:
    [JOther] stands for every value that is neither [undefined], an integer
    nor a string (objects, arrays, booleans, [null], fractions). *)
Inductive jsval : Type :=
| JUndefined
| JNumber (n : Z)
| JString (s : string)
| JOther.

(** [n === v] for a number [n]. *)
Definition strict_eq_number (n : Z) (v : jsval) : bool :=
  match v with
  | JNumber m => bool_decide (n = m)
  | _ => false
  end.

(** [s.slice(n)] *)
Fixpoint string_drop (n : nat) (s : string) : string :=
  match n, s with
  | O, _ => s
  | S n', String _ s' => string_drop n' s'
  | S _, EmptyString => EmptyString
  end.

(** [s.startsWith(p)] *)
Fixpoint starts_with (p s : string) : bool :=
  match p, s with
  | EmptyString, _ => true
  | String a p', String b s' => bool_decide (a = b) && starts_with p' s'
  | String _ _, EmptyString => false
  end.

(** [s.includes(t)]: [t] occurs in [s] at some position. *)
Fixpoint includes (s t : string) : bool :=
  starts_with t s ||
  match s with
  | EmptyString => false
  | String _ s' => includes s' t
  end.

(** [s.replace(pat, rep)] for a string pattern: the first occurrence of
    [pat] is replaced. ([rep] is taken literally; the program's only
    replacement string is [''], which has no [$] pattern.) *)
Fixpoint replace (pat rep s : string) : string :=
  if starts_with pat s then rep +:+ string_drop (String.length pat) s
  else match s with
       | EmptyString => EmptyString
       | String c s' => String c (replace pat rep s')
       end.

(** The string of the given bytes. *)
Definition utf8 (bytes : list nat) : string :=
  fold_right (fun b s => String (ascii_of_nat b) s) EmptyString bytes.

(** The characters [parseInt] skips in front of a number, each as its
    UTF-8 bytes: the white space of the language (TAB, VT, FF, SP, U+00A0,
    U+1680, U+2000 to U+200A, U+202F, U+205F, U+3000, U+FEFF) and its line
    terminators (LF, CR, U+2028, U+2029). The last entry reads a byte 160
    that is not part of a UTF-8 sequence as the character of that number,
    U+00A0; no well-formed string has such a byte where a character
    starts. *)
Definition white_space_chars : list string :=
  [ utf8 [9]; utf8 [10]; utf8 [11]; utf8 [12]; utf8 [13]; utf8 [32];
    utf8 [194; 160];
    utf8 [225; 154; 128];
    utf8 [226; 128; 128]; utf8 [226; 128; 129]; utf8 [226; 128; 130];
    utf8 [226; 128; 131]; utf8 [226; 128; 132]; utf8 [226; 128; 133];
    utf8 [226; 128; 134]; utf8 [226; 128; 135]; utf8 [226; 128; 136];
    utf8 [226; 128; 137]; utf8 [226; 128; 138];
    utf8 [226; 128; 168]; utf8 [226; 128; 169];
    utf8 [226; 128; 175];
    utf8 [226; 129; 159];
    utf8 [227; 128; 128];
    utf8 [239; 187; 191];
    utf8 [160] ].

Definition is_white_space (w : string) : bool :=
  bool_decide (w ∈ white_space_chars).

(** The byte [c] is the first byte of one of these characters. *)
Definition starts_white_space (c : ascii) : bool :=
  bool_decide (Exists (fun w => starts_with (String c "") w = true)
                 white_space_chars).

(** [parseInt(s)] with no radix: leading white space is skipped, then an
    optional sign, then an optional [0x]/[0X] that selects radix 16, then
    the longest run of digits; [NaN] ([None]) when that run is empty. *)
Fixpoint skip_white_space (s : string) : string :=
  match s with
  | String c1 s1 =>
      if is_white_space (String c1 "") then skip_white_space s1
      else
        match s1 with
        | String c2 s2 =>
            if is_white_space (String c1 (String c2 "")) then
              skip_white_space s2
            else
              match s2 with
              | String c3 s3 =>
                  if is_white_space (String c1 (String c2 (String c3 "")))
                  then skip_white_space s3
                  else s
              | EmptyString => s
              end
        | EmptyString => s
        end
  | EmptyString => s
  end.

Definition digit_value (c : ascii) : option Z :=
  let n := Z.of_nat (nat_of_ascii c) in
  if (48 <=? n)%Z && (n <=? 57)%Z then Some (n - 48)%Z
  else if (97 <=? n)%Z && (n <=? 122)%Z then Some (n - 87)%Z
  else if (65 <=? n)%Z && (n <=? 90)%Z then Some (n - 55)%Z
  else None.

Fixpoint parse_digits (radix : Z) (acc : option Z) (s : string) : option Z :=
  match s with
  | String c s' =>
      match digit_value c with
      | Some d =>
          if (d <? radix)%Z
          then parse_digits radix (Some (default 0 acc * radix + d)%Z) s'
          else acc
      | None => acc
      end
  | EmptyString => acc
  end.

Definition strip_sign (s : string) : Z * string :=
  match s with
  | String "-" s' => ((-1)%Z, s')
  | String "+" s' => (1%Z, s')
  | _ => (1%Z, s)
  end.

Definition strip_radix (s : string) : Z * string :=
  match s with
  | String "0" (String "x" s') => (16%Z, s')
  | String "0" (String "X" s') => (16%Z, s')
  | _ => (10%Z, s)
  end.

(** The Number that an integer becomes: itself below 2^53, beyond that
    the nearest integer with 53 significant bits, ties to the even one;
    [None] stands for an infinity, from 2^1024 on. *)
Definition to_number (m : Z) : option Z :=
  let a := Z.abs m in
  if (a <? 2 ^ 53)%Z then Some m
  else
    let e := (Z.log2 a - 52)%Z in
    let q := (a / 2 ^ e)%Z in
    let r := (a mod 2 ^ e)%Z in
    let h := (2 ^ (e - 1))%Z in
    let q' := if (h <? r)%Z || ((r =? h)%Z && Z.odd q)
              then (q + 1)%Z else q in
    let v := (q' * 2 ^ e)%Z in
    if (v <? 2 ^ 1024)%Z then Some (Z.sgn m * v)%Z else None.

(** The result is [None] for [NaN] and for an infinity: the two Numbers
    [parseInt] can return that are [===] to no id. *)
Definition parseInt (s : string) : option Z :=
  let '(sign, s1) := strip_sign (skip_white_space s) in
  let '(radix, s2) := strip_radix s1 in
  match parse_digits radix None s2 with
  | Some m => to_number (sign * m)
  | None => None
  end.

(** What the language definition says [parseInt(s)] is, as a relation:
    [s] is white space, an optional sign, an optional [0x] or [0X], a
    numeral in the radix that selects (16 after the prefix, 10 without),
    and a rest that does not continue the numeral; the value is the Number
    for the signed value of the numeral in positional notation.
    [reads_as s n] says that this value is the finite number [n]; a
    string that reads as no [n] gives [NaN] or an infinity. *)
Inductive white_space : string -> Prop :=
| white_space_nil : white_space ""
| white_space_cons (w s : string) :
    w ∈ white_space_chars -> white_space s -> white_space (w +:+ s).

Definition digit (radix : Z) (c : ascii) (d : Z) : Prop :=
  digit_value c = Some d /\ (d < radix)%Z.

Inductive numeral (radix : Z) : string -> Z -> Prop :=
| numeral_digit (c : ascii) (d : Z) :
    digit radix c d -> numeral radix (String c "") d
| numeral_more (ds : string) (m : Z) (c : ascii) (d : Z) :
    numeral radix ds m -> digit radix c d ->
    numeral radix (ds +:+ String c "") (m * radix + d).

Definition no_digit (radix : Z) (rest : string) : Prop :=
  match rest with
  | EmptyString => True
  | String c _ => forall d : Z, ~ digit radix c d
  end.

Inductive sign_of : string -> Z -> Prop :=
| sign_none : sign_of "" 1
| sign_plus : sign_of "+" 1
| sign_minus : sign_of "-" (-1).

Inductive radix_of : string -> Z -> Prop :=
| radix_none : radix_of "" 10
| radix_0x : radix_of "0x" 16
| radix_0X : radix_of "0X" 16.

Definition reads_as (s : string) (n : Z) : Prop :=
  exists (ws sign prefix digits rest : string) (sgn radix m : Z),
    s = ws +:+ sign +:+ prefix +:+ digits +:+ rest /\
    white_space ws /\
    sign_of sign sgn /\
    radix_of prefix radix /\
    (prefix = "" ->
       starts_with "0x" (digits +:+ rest) = false /\
       starts_with "0X" (digits +:+ rest) = false) /\
    numeral radix digits m /\
    no_digit radix rest /\
    to_number (sgn * m) = Some n.

(** ** Data model *)

Module User.
Record t : Type := mk
  { id : Z; username : string; password : string; role : string }.
End User.

Module Item.
Record t : Type := mk
  { id : Z; ownerId : Z; content : string; isPublic : bool }.
End Item.

(** The object [login] hands to [jwt.sign]. *)
Module Payload.
Record t : Type := mk { userId : Z; role : string; exp : Z }.
End Payload.

(** The object [jwt.verify] returns: whatever the token carried. *)
Module Decoded.
Record t : Type := mk
  { userId : jsval; role : jsval; exp : jsval; iat : jsval }.
End Decoded.

Module AuthPayload.
Record t : Type := mk { token : string; user : User.t }.
End AuthPayload.

(** The GraphQL context [authMiddleware] builds: [{}] and
    [{ user: undefined }] both have [user = None]. *)
Record Context : Type := { user : option User.t }.

(** The context of a request that carries no usable credential. *)
Definition anonymous : Context := {| user := None |}.

(** [req.headers.authorization] *)
Record Request : Type := { authorization : option string }.

(** The module-level arrays. *)
Record Db : Type := { users : list User.t; vault : list Item.t }.

(** ** The environment of the program *)

(** [process.env] after the start-up validation. *)
Class Env : Type :=
  { SECRET_KEY : string; FLAG : string; ADMIN_PASSWORD : string }.

(** The two functions of [jsonwebtoken] the program calls, with the
    algorithm fixed to HS256. The last argument is the clock, [Date.now()]
    in milliseconds, which the package reads by itself. *)
Class Jwt : Type :=
  { jwt_sign : Payload.t -> string -> Z -> result string;
    jwt_verify : string -> string -> Z -> result Decoded.t }.

(** What [jwt.verify] returns for a token [jwt.sign] made of [p] at [now]. *)
Definition decoded_of (p : Payload.t) (now : Z) : Decoded.t :=
  {| Decoded.userId := JNumber (Payload.userId p);
     Decoded.role := JString (Payload.role p);
     Decoded.exp := JNumber (Payload.exp p);
     Decoded.iat := JNumber (now / 1000) |}.

(** The contract of [jsonwebtoken] for one key: signing succeeds, and the
    token verifies under the same key, giving the payload back with [iat]
    added, for as long as the clock has not reached [exp]. *)
Definition jwt_round_trip `{Jwt} (key : string) : Prop :=
  forall (p : Payload.t) (now : Z),
    exists tok : string,
      jwt_sign p key now = Ok tok /\
      forall now' : Z,
        (now' / 1000 < Payload.exp p)%Z ->
        jwt_verify tok key now' = Ok (decoded_of p now).

(** ** Resolvers as state-passing computations that may throw *)

Definition M (A : Type) : Type := Db -> result A * Db.

Definition ret {A} (a : A) : M A := fun db => (Ok a, db).

Definition throw {A} (e : exn) : M A := fun db => (Throw e, db).

Definition bind {A B} (c : M A) (k : A -> M B) : M B :=
  fun db =>
    match c db with
    | (Ok a, db') => k a db'
    | (Throw e, db') => (Throw e, db')
    end.

Notation "x <- c ;; k" := (bind c (fun x => k))
  (at level 100, c at next level, right associativity).
Notation "c ;;; k" := (bind c (fun _ => k))
  (at level 100, right associativity).

(** A call into a library that returns or throws and has no access to the
    program's arrays. *)
Definition lift {A} (r : result A) : M A := fun db => (r, db).

Definition get_users : M (list User.t) := fun db => (Ok (users db), db).

Definition get_vault : M (list Item.t) := fun db => (Ok (vault db), db).

Definition set_vault (v : list Item.t) : M unit :=
  fun db => (Ok tt, {| users := users db; vault := v |}).

(** [try { body } catch (e) { handler }] *)
Definition try_catch {A} (body : M A) (handler : exn -> M A) : M A :=
  fun db =>
    match body db with
    | (Ok a, db') => (Ok a, db')
    | (Throw e, db') => handler e db'
    end.

(** [Array.prototype.find]: the first element that satisfies [P]. *)
Definition find {A} (P : A -> Prop) `{forall x, Decision (P x)}
    (l : list A) : option A :=
  snd <$> list_find P l.

Definition NotAuthenticated : exn := Error "Not authenticated".
Definition ItemNotFound : exn := Error "Item not found".
Definition InvalidCredentials : exn := Error "Invalid credentials".

(** [context.user && i.ownerId === context.user.id] *)
Definition is_owner (context : Context) (i : Item.t) : Prop :=
  match user context with
  | Some u => Item.ownerId i = User.id u
  | None => False
  end.

#[global] Instance is_owner_dec context i : Decision (is_owner context i).
Proof. unfold is_owner. destruct (user context); apply _. Defined.

(** [item.isPublic = true] on the object [item]. *)
Definition publish (item : Item.t) : Item.t :=
  {| Item.id := Item.id item;
     Item.ownerId := Item.ownerId item;
     Item.content := Item.content item;
     Item.isPublic := true |}.

(** "[content] contains [searchTerm] as a substring", in the words of the
    specification. *)
Definition substring_of (t s : string) : Prop :=
  exists pre post : string, s = pre +:+ t +:+ post.

(** The visibility rule of the specification: the item is public, or the
    context is authenticated and its user owns the item. *)
Definition visible (context : Context) (i : Item.t) : Prop :=
  Item.isPublic i = true \/
  exists u : User.t, user context = Some u /\ Item.ownerId i = User.id u.

#[global] Instance visible_dec context i : Decision (visible context i).
Proof.
  unfold visible. destruct (user context) as [u|].
  - destruct (decide (Item.isPublic i = true)) as [Hp|Hp]; [left; by left|].
    destruct (decide (Item.ownerId i = User.id u)) as [Ho|Ho].
    + left. right. by exists u.
    + right. intros [?|(u' & [= <-] & ?)]; done.
  - destruct (decide (Item.isPublic i = true)) as [Hp|Hp]; [left; by left|].
    right. intros [?|(u' & [=] & ?)]; done.
Defined.

Section Resolvers.
Context `{Env, Jwt}.

(** The arrays as the program's start-up leaves them. *)
Definition seed_users : list User.t :=
  [ User.mk 1 "stewie" ADMIN_PASSWORD "admin";
    User.mk 2 "admin" "admin" "admiin";
    User.mk 3 "user1" "admin123" "user" ].

Definition seed_vault : list Item.t :=
  [ Item.mk 1 1 FLAG false;
    Item.mk 2 2 "Nothing to see here" false;
    Item.mk 3 1 "Public note" true;
    Item.mk 4 1 "FAKE_FLAG{dummy_flag}" false ].

Definition seed : Db := {| users := seed_users; vault := seed_vault |}.

(** [root.login]; [now] is [Date.now()]. *)
Definition login (username password : string) (now : Z)
    : M AuthPayload.t :=
  us <- get_users;;
  match find (fun u => User.username u = username /\
                       User.password u = password) us with
  | None => throw InvalidCredentials
  | Some user =>
      token <- lift (jwt_sign
                       {| Payload.userId := User.id user;
                          Payload.role := User.role user;
                          Payload.exp := (now / 1000 + 60 * 60)%Z |}
                       SECRET_KEY now);;
      ret {| AuthPayload.token := token; AuthPayload.user := user |}
  end.

(** [root.vaultItems] *)
Definition vaultItems (context : Context) : M (list Item.t) :=
  match user context with
  | None => throw NotAuthenticated
  | Some u =>
      v <- get_vault;;
      if decide (User.role u = "admin") then ret v
      else ret (filter (fun i => Item.ownerId i = User.id u \/
                                 Item.isPublic i) v)
  end.

(** [root.publicVaultItems] *)
Definition publicVaultItems : M (list Item.t) :=
  v <- get_vault;;
  ret (filter (fun i => Is_true (Item.isPublic i)) v).

(** [root.searchVault] *)
Definition searchVault (searchTerm : string) (context : Context)
    : M (list Item.t) :=
  v <- get_vault;;
  ret (filter (fun i => includes (Item.content i) searchTerm /\
                        (Item.isPublic i \/ is_owner context i)) v).

(** [root.createVaultItem] *)
Definition createVaultItem (content : string) (isPublic : bool)
    (context : Context) : M Item.t :=
  match user context with
  | None => throw NotAuthenticated
  | Some u =>
      v <- get_vault;;
      let newItem :=
        {| Item.id := (Z.of_nat (length v) + 1)%Z;
           Item.ownerId := User.id u;
           Item.content := content;
           Item.isPublic := isPublic |} in
      set_vault (v ++ [newItem]);;;
      ret newItem
  end.

(** [root.makeVaultItemPublic]; [id] is the string the GraphQL layer
    makes of an [ID!] argument. The found object stays where it is in
    the array, so updating it is an update at its index. *)
Definition makeVaultItemPublic (id : string) (context : Context)
    : M Item.t :=
  match user context with
  | None => throw NotAuthenticated
  | Some _ =>
      v <- get_vault;;
      match list_find (fun i => parseInt id = Some (Item.id i)) v with
      | None => throw ItemNotFound
      | Some (k, item) =>
          set_vault (<[k := publish item]> v);;;
          ret (publish item)
      end
  end.

(** [authMiddleware]; [now] is the clock [jwt.verify] reads. *)
Definition authMiddleware (req : Request) (now : Z) : M Context :=
  let token := default "" (authorization req) in
  try_catch
    (if decide (token = "") then ret {| user := None |}
     else
       decoded <- lift (jwt_verify (replace "Bearer " "" token)
                          SECRET_KEY now);;
       us <- get_users;;
       ret {| user := find (fun u => Is_true (strict_eq_number (User.id u)
                                       (Decoded.userId decoded))) us |})
    (fun e => ret {| user := None |}).

(** The scenario of the specification on the seeded arrays, with what it
    says about the role of identity 1 left open as [role_of_identity_1]:
    item 2 belongs to identity 2 and is private; identity 1 logs in at
    [now], presents the token at [now'] and publishes item 2; an
    anonymous request then finds item 2 among the public items. *)
Definition seeded_scenario (role_of_identity_1 : string -> Prop)
    (now now' : Z) : Prop :=
  exists (u1 u2 : User.t) (item2 : Item.t) (tok : string) (db' : Db),
    find (fun u => User.id u = 1%Z) (users seed) = Some u1 /\
    find (fun u => User.id u = 2%Z) (users seed) = Some u2 /\
    role_of_identity_1 (User.role u1) /\
    find (fun i => Item.id i = 2%Z) (vault seed) = Some item2 /\
    Item.ownerId item2 = User.id u2 /\
    Item.isPublic item2 = false /\
    login (User.username u1) (User.password u1) now seed
      = (Ok {| AuthPayload.token := tok; AuthPayload.user := u1 |}, seed) /\
    authMiddleware {| authorization := Some ("Bearer " +:+ tok) |} now' seed
      = (Ok {| user := Some u1 |}, seed) /\
    makeVaultItemPublic "2" {| user := Some u1 |} seed
      = (Ok (publish item2), db') /\
    find (fun i => Item.id i = 2%Z) (vault db') = Some (publish item2) /\
    Item.isPublic (publish item2) = true /\
    authMiddleware {| authorization := None |} now' db'
      = (Ok anonymous, db') /\
    exists items : list Item.t,
      publicVaultItems db' = (Ok items, db') /\ publish item2 ∈ items.
End Resolvers.

(** ** A small implementation of the [Jwt] interface

    Not HS256: a token is the key followed by the three numbers and the
    role, each number written bit by bit with a terminator. It shows that
    [jwt_round_trip] can be met and gives the properties below something
    to run on. *)
Module ToyJwt.
Fixpoint enc_pos (p : positive) : string :=
  match p with
  | xH => "."
  | xO q => String "0" (enc_pos q)
  | xI q => String "1" (enc_pos q)
  end.

Definition enc_Z (z : Z) : string :=
  match z with
  | Z0 => "z"
  | Zpos p => String "p" (enc_pos p)
  | Zneg p => String "n" (enc_pos p)
  end.

Fixpoint dec_pos (s : string) : option (positive * string) :=
  match s with
  | String "." rest => Some (xH, rest)
  | String "0" s' =>
      match dec_pos s' with
      | Some (q, rest) => Some (xO q, rest)
      | None => None
      end
  | String "1" s' =>
      match dec_pos s' with
      | Some (q, rest) => Some (xI q, rest)
      | None => None
      end
  | _ => None
  end.

Definition dec_Z (s : string) : option (Z * string) :=
  match s with
  | String "z" rest => Some (Z0, rest)
  | String "p" s' =>
      match dec_pos s' with
      | Some (q, rest) => Some (Zpos q, rest)
      | None => None
      end
  | String "n" s' =>
      match dec_pos s' with
      | Some (q, rest) => Some (Zneg q, rest)
      | None => None
      end
  | _ => None
  end.

Definition sign (p : Payload.t) (key : string) (now : Z) : result string :=
  Ok (key +:+ enc_Z (Payload.userId p) +:+ enc_Z (Payload.exp p) +:+
      enc_Z (now / 1000) +:+ Payload.role p).

Definition verify (tok key : string) (now : Z) : result Decoded.t :=
  if starts_with key tok then
    match dec_Z (string_drop (String.length key) tok) with
    | Some (uid, s1) =>
        match dec_Z s1 with
        | Some (e, s2) =>
            match dec_Z s2 with
            | Some (i, r) =>
                if (now / 1000 <? e)%Z
                then Ok {| Decoded.userId := JNumber uid;
                           Decoded.role := JString r;
                           Decoded.exp := JNumber e;
                           Decoded.iat := JNumber i |}
                else Throw (Error "jwt expired")
            | None => Throw (Error "jwt malformed")
            end
        | None => Throw (Error "jwt malformed")
        end
    | None => Throw (Error "jwt malformed")
    end
  else Throw (Error "invalid signature").

Definition jwt : Jwt := {| jwt_sign := sign; jwt_verify := verify |}.

Definition env : Env :=
  {| SECRET_KEY := "s3cr3t";
     FLAG := "FLAG{real}";
     ADMIN_PASSWORD := "hunter2" |}.

(** The seeded state under [env], and its three users. *)
Definition db0 : Db := @seed env.
Definition stewie : User.t := User.mk 1 "stewie" "hunter2" "admin".
Definition admin : User.t := User.mk 2 "admin" "admin" "admiin".
Definition user1 : User.t := User.mk 3 "user1" "admin123" "user".
End ToyJwt.

(** ** The endpoint

    [app.use('/graphql', limiter, graphqlHTTP((req) => ({ rootValue: root,
    context: authMiddleware(req), ... })))]: for a request the context is
    built once by [authMiddleware], and the executor calls the function of
    [root] that the selected field names with the field's arguments and
    that context. [graphql] is that for a request selecting one field and
    [graphql_request] for a request selecting several, which runs them in
    turn with the same context; that is a sequence of [graphql] steps,
    since no resolver writes to [users]. Rate limiting and response
    formatting are left out. *)

(** The fields of the schema's [Query] and [Mutation] types, with their
    arguments. *)
Inductive Operation : Type :=
| Login (username password : string)
| VaultItems
| PublicVaultItems
| SearchVault (searchTerm : string)
| CreateVaultItem (content : string) (isPublic : bool)
| MakeVaultItemPublic (id : string).

(** What a field resolves to: [AuthPayload], [[VaultItem]] or
    [VaultItem]. *)
Inductive Response : Type :=
| AuthPayloadValue (a : AuthPayload.t)
| VaultItemList (l : list Item.t)
| VaultItemValue (i : Item.t).

Section Endpoint.
Context `{Env, Jwt}.

(** [root[field](args, context)] *)
Definition resolve (op : Operation) (context : Context) (now : Z)
    : M Response :=
  match op with
  | Login username password =>
      a <- login username password now;; ret (AuthPayloadValue a)
  | VaultItems =>
      l <- vaultItems context;; ret (VaultItemList l)
  | PublicVaultItems =>
      l <- publicVaultItems;; ret (VaultItemList l)
  | SearchVault searchTerm =>
      l <- searchVault searchTerm context;; ret (VaultItemList l)
  | CreateVaultItem content isPublic =>
      i <- createVaultItem content isPublic context;; ret (VaultItemValue i)
  | MakeVaultItemPublic id =>
      i <- makeVaultItemPublic id context;; ret (VaultItemValue i)
  end.

Definition graphql (req : Request) (op : Operation) (now : Z) : M Response :=
  context <- authMiddleware req now;;
  resolve op context now.

(** A field that creates an item. *)
Definition is_creation (op : Operation) : bool :=
  match op with
  | CreateVaultItem _ _ => true
  | _ => false
  end.

(** The fields a request selects are resolved in the order of the
    selection, all with the context of the request. A field whose resolver
    throws resolves to [null] with the error reported, and the fields
    after it are resolved all the same, since every field of the schema is
    nullable. *)
Fixpoint resolve_fields (ops : list Operation) (context : Context) (now : Z)
    (db : Db) : list (result Response) * Db :=
  match ops with
  | [] => ([], db)
  | op :: ops' =>
      let '(r, db1) := resolve op context now db in
      let '(rs, db2) := resolve_fields ops' context now db1 in
      (r :: rs, db2)
  end.

(** A request that selects the fields [ops]. *)
Definition graphql_request (req : Request) (ops : list Operation) (now : Z)
    : M (list (result Response)) :=
  context <- authMiddleware req now;;
  fun db =>
    let '(rs, db') := resolve_fields ops context now db in (Ok rs, db').

(** The states the program can be in: the seeded arrays, and whatever a
    request leaves behind, whether it returned or threw. *)
Inductive reachable : Db -> Prop :=
| reachable_seed : reachable seed
| reachable_step (db : Db) (req : Request) (op : Operation) (now : Z) :
    reachable db -> reachable (snd (graphql req op now db)).
End Endpoint.

(** The item in slot [k] of the vault has id [k + 1]. *)
Definition numbered (v : list Item.t) : Prop :=
  forall (k : nat) (i : Item.t),
    v !! k = Some i -> Item.id i = (Z.of_nat k + 1)%Z.

(** Every owner is the id of a user. *)
Definition owners_exist (db : Db) : Prop :=
  forall i : Item.t,
    i ∈ vault db -> exists u : User.t, u ∈ users db /\ User.id u = Item.ownerId i.

(** From [v] to [v'] nothing is removed, renumbered, handed to another
    owner, rewritten or made private again. *)
Definition grows (v v' : list Item.t) : Prop :=
  (length v <= length v')%nat /\
  forall (k : nat) (i : Item.t),
    v !! k = Some i ->
    exists i' : Item.t,
      v' !! k = Some i' /\
      Item.id i' = Item.id i /\
      Item.ownerId i' = Item.ownerId i /\
      Item.content i' = Item.content i /\
      (Item.isPublic i = true -> Item.isPublic i' = true).

(** Requests on the seeded state under [ToyJwt]. *)
Module ToySession.
Import ToyJwt.

(** What [ToyJwt.sign] makes of user 3 with role ["user"] at time 5000. *)
Definition user1_token : string := "s3cr3tp1.p10101000011.p10.user".

(** The same with the role claim ["admin"]. *)
Definition relabelled_token : string := "s3cr3tp1.p10101000011.p10.admin".

Definition as_user1 : Context := {| user := Some user1 |}.

Definition bearer (tok : string) : Request :=
  {| authorization := Some ("Bearer " +:+ tok) |}.

(** The state after user 3 has created a private item. *)
Definition db1 : Db :=
  snd (@graphql env jwt (bearer user1_token)
         (CreateVaultItem "mine" false) 5000 db0).
End ToySession.

(** * Properties *)

(** ** Strings *)

Lemma starts_with_spec (p s : string) :
  starts_with p s = true <-> exists post : string, s = p +:+ post.
Proof.
  revert s. induction p as [|a p IH]; intros s; simpl.
  - split; [intros _; by exists s | done].
  - destruct s as [|b s]; simpl.
    + split; [done | intros [post [=]]].
    + rewrite andb_true_iff, bool_decide_eq_true, IH. split.
      * intros [-> [post ->]]. by exists post.
      * intros [post [= -> ->]]. split; [done | by exists post].
Qed.

Lemma starts_with_app (p s : string) : starts_with p (p +:+ s) = true.
Proof. apply starts_with_spec. by exists s. Qed.

Lemma string_drop_app (p s : string) :
  string_drop (String.length p) (p +:+ s) = s.
Proof. induction p as [|a p IH]; simpl; [done | apply IH]. Qed.

Lemma includes_spec (s t : string) :
  includes s t = true <-> substring_of t s.
Proof.
  unfold substring_of. induction s as [|c s IH]; simpl.
  - rewrite orb_false_r, starts_with_spec. split.
    + intros [post E]. by exists "", post.
    + intros (pre & post & E). destruct pre as [|? ?]; [|done].
      by exists post.
  - rewrite orb_true_iff, starts_with_spec, IH. split.
    + intros [[post E]|(pre & post & E)].
      * by exists "", post.
      * exists (String c pre), post. simpl. by rewrite E.
    + intros (pre & post & E). destruct pre as [|c' pre]; simpl in E.
      * left. by exists post.
      * right. injection E as -> E. by exists pre, post.
Qed.

Lemma includes_empty (s : string) : includes s "" = true.
Proof. destruct s; done. Qed.

Lemma replace_prefix (pat rep s : string) :
  replace pat rep (pat +:+ s) = rep +:+ s.
Proof.
  destruct (pat +:+ s) eqn:E; simpl; rewrite <- E.
  - by rewrite starts_with_app, string_drop_app.
  - by rewrite starts_with_app, string_drop_app.
Qed.

(** ** Reading a number *)

Lemma string_app_nil_r (s : string) : s +:+ "" = s.
Proof.
  induction s as [|c s IH]; [done|].
  change (String c (s +:+ "") = String c s). by rewrite IH.
Qed.

Lemma string_app_assoc (a b c : string) : (a +:+ b) +:+ c = a +:+ b +:+ c.
Proof.
  induction a as [|x a IH]; [done|].
  change (String x ((a +:+ b) +:+ c) = String x (a +:+ b +:+ c)).
  by rewrite IH.
Qed.

Lemma is_white_space_spec (w : string) :
  is_white_space w = true <-> w ∈ white_space_chars.
Proof. apply bool_decide_eq_true. Qed.

Lemma skip_white_space_char (w t : string) :
  w ∈ white_space_chars ->
  skip_white_space (w +:+ t) = skip_white_space t.
Proof.
  unfold white_space_chars. intros Hw.
  repeat (apply elem_of_cons in Hw as [->|Hw]; [reflexivity|]).
  by apply elem_of_nil in Hw.
Qed.

Lemma skip_white_space_app (ws t : string) :
  white_space ws ->
  skip_white_space (ws +:+ t) = skip_white_space t.
Proof.
  induction 1 as [|w s Hw _ IH]; [done|].
  by rewrite string_app_assoc, skip_white_space_char.
Qed.

Lemma starts_white_space_head (c : ascii) (w : string) :
  starts_white_space c = false -> is_white_space (String c w) = false.
Proof.
  unfold starts_white_space, is_white_space.
  rewrite !bool_decide_eq_false. intros Hno Hin. apply Hno.
  apply Exists_exists. exists (String c w). split; [done|].
  simpl. by rewrite bool_decide_eq_true_2.
Qed.

Lemma skip_white_space_stop (c : ascii) (t : string) :
  starts_white_space c = false ->
  skip_white_space (String c t) = String c t.
Proof.
  intros Hc. destruct t as [|c2 [|c3 t]]; simpl;
    by rewrite ?(starts_white_space_head c _ Hc).
Qed.

Lemma skip_white_space_split (s : string) :
  exists ws : string, white_space ws /\ s = ws +:+ skip_white_space s.
Proof.
  assert (Hn : forall (n : nat) (s : string),
            (String.length s < n)%nat ->
            exists ws, white_space ws /\ s = ws +:+ skip_white_space s).
  { clear s. induction n as [|n IH]; intros s Hlen; [lia|].
    destruct s as [|c1 s1]; [by exists ""; split; [constructor|]|].
    simpl in Hlen. simpl.
    destruct (is_white_space (String c1 "")) eqn:H1.
    { destruct (IH s1) as (ws & Hws & Hs); [lia|].
      exists (String c1 "" +:+ ws). split.
      - constructor; [by apply is_white_space_spec | done].
      - change (String c1 s1 = String c1 (ws +:+ skip_white_space s1)).
        by rewrite <- Hs. }
    destruct s1 as [|c2 s2]; [by exists ""; split; [constructor|]|].
    simpl in Hlen.
    destruct (is_white_space (String c1 (String c2 ""))) eqn:H2.
    { destruct (IH s2) as (ws & Hws & Hs); [lia|].
      exists (String c1 (String c2 "") +:+ ws). split.
      - constructor; [by apply is_white_space_spec | done].
      - change (String c1 (String c2 s2)
                = String c1 (String c2 (ws +:+ skip_white_space s2))).
        by rewrite <- Hs. }
    destruct s2 as [|c3 s3]; [by exists ""; split; [constructor|]|].
    simpl in Hlen.
    destruct (is_white_space (String c1 (String c2 (String c3 ""))))
      eqn:H3; [|by exists ""; split; [constructor|]].
    destruct (IH s3) as (ws & Hws & Hs); [lia|].
    exists (String c1 (String c2 (String c3 "")) +:+ ws). split.
    - constructor; [by apply is_white_space_spec | done].
    - change (String c1 (String c2 (String c3 s3))
              = String c1 (String c2 (String c3
                  (ws +:+ skip_white_space s3)))).
      by rewrite <- Hs. }
  apply (Hn (S (String.length s))). lia.
Qed.

Lemma digit_not_white_space (c : ascii) (d : Z) :
  digit_value c = Some d -> starts_white_space c = false.
Proof.
  destruct c as [[] [] [] [] [] [] [] []]; intros Hd;
    (reflexivity || discriminate Hd).
Qed.

Lemma digit_not_sign (c : ascii) (d : Z) :
  digit_value c = Some d -> c <> "+"%char /\ c <> "-"%char.
Proof. intros Hd. split; intros ->; discriminate Hd. Qed.

(** The three shapes [strip_sign] tells apart. *)
Lemma strip_sign_cases (t : string) :
  (exists u, t = "-" +:+ u /\ strip_sign t = ((-1)%Z, u)) \/
  (exists u, t = "+" +:+ u /\ strip_sign t = (1%Z, u)) \/
  (strip_sign t = (1%Z, t) /\
   forall c u, t = String c u -> c <> "+"%char /\ c <> "-"%char).
Proof.
  destruct t as [|c u]; [right; right; split; [done|]; by intros|].
  destruct (decide (c = "-"%char)) as [->|Hm]; [left; by exists u|].
  destruct (decide (c = "+"%char)) as [->|Hp]; [right; left; by exists u|].
  right. right. split; [|by intros ? ? [= <- <-]].
  destruct c as [[] [] [] [] [] [] [] []]; done.
Qed.

(** The three shapes [strip_radix] tells apart. *)
Lemma strip_radix_cases (u : string) :
  (exists v, u = "0x" +:+ v /\ strip_radix u = (16%Z, v)) \/
  (exists v, u = "0X" +:+ v /\ strip_radix u = (16%Z, v)) \/
  (strip_radix u = (10%Z, u) /\
   starts_with "0x" u = false /\ starts_with "0X" u = false).
Proof.
  destruct u as [|c1 u1]; [right; right; by split_and!|].
  destruct (decide (c1 = "0"%char)) as [->|H0].
  - destruct u1 as [|c2 u2]; [right; right; by split_and!|].
    destruct (decide (c2 = "x"%char)) as [->|Hx]; [left; by exists u2|].
    destruct (decide (c2 = "X"%char)) as [->|HX];
      [right; left; by exists u2|].
    right. right. simpl.
    rewrite !(bool_decide_eq_false_2 (_ = c2)) by done.
    split_and!; [|done..].
    destruct c2 as [[] [] [] [] [] [] [] []]; done.
  - right. right. simpl.
    rewrite !(bool_decide_eq_false_2 (_ = c1)) by done.
    split_and!; [|done..].
    destruct c1 as [[] [] [] [] [] [] [] []]; done.
Qed.

Lemma numeral_head (radix : Z) (ds : string) (m : Z) :
  numeral radix ds m ->
  exists (c : ascii) (ds' : string) (d : Z),
    ds = String c ds' /\ digit radix c d.
Proof.
  induction 1 as [c d Hd|ds m c d _ (c' & ds' & d' & -> & Hd') Hd].
  - by exists c, "", d.
  - by exists c', (ds' +:+ String c ""), d'.
Qed.

Lemma parse_digits_numeral (radix : Z) (ds : string) (m : Z) (t : string) :
  numeral radix ds m ->
  parse_digits radix None (ds +:+ t) = parse_digits radix (Some m) t.
Proof.
  intros Hnum. revert t.
  induction Hnum as [c d [Hd Hlt]|ds m c d _ IH [Hd Hlt]]; intros t.
  - simpl. rewrite Hd. by rewrite (proj2 (Z.ltb_lt d radix) Hlt).
  - rewrite string_app_assoc, IH. simpl. rewrite Hd.
    by rewrite (proj2 (Z.ltb_lt d radix) Hlt).
Qed.

Lemma parse_digits_stop (radix : Z) (acc : option Z) (rest : string) :
  no_digit radix rest -> parse_digits radix acc rest = acc.
Proof.
  destruct rest as [|c rest]; [done|]. simpl. intros Hno.
  destruct (digit_value c) as [d|] eqn:Hd; [|done].
  destruct (d <? radix)%Z eqn:Hlt; [|done].
  destruct (Hno d). split; [done | by apply Z.ltb_lt].
Qed.

Lemma parse_digits_more (radix : Z) (s pre : string) (m0 m : Z) :
  numeral radix pre m0 ->
  parse_digits radix (Some m0) s = Some m ->
  exists ds rest : string,
    s = ds +:+ rest /\ numeral radix (pre +:+ ds) m /\ no_digit radix rest.
Proof.
  revert pre m0. induction s as [|c s IH]; intros pre m0 Hpre; simpl.
  - intros [= <-]. exists "", "". rewrite (string_app_nil_r pre). by split_and!.
  - destruct (digit_value c) as [d|] eqn:Hd.
    + destruct (d <? radix)%Z eqn:Hlt.
      * intros Hparse. apply Z.ltb_lt in Hlt.
        destruct (IH (pre +:+ String c "") (m0 * radix + d)%Z)
          as (ds & rest & -> & Hnum & Hrest); [by constructor | done |].
        exists (String c ds), rest. split; [done|].
        rewrite string_app_assoc in Hnum. by split.
      * intros [= <-]. exists "", (String c s).
        rewrite (string_app_nil_r pre). split_and!; [done..|].
        intros d' [Hd' Hlt']. rewrite Hd in Hd'. injection Hd' as <-.
        apply Z.ltb_ge in Hlt. lia.
    + intros [= <-]. exists "", (String c s).
      rewrite (string_app_nil_r pre). split_and!; [done..|].
      intros d' [Hd' _]. congruence.
Qed.

Lemma parse_digits_some (radix : Z) (s : string) (m : Z) :
  parse_digits radix None s = Some m ->
  exists ds rest : string,
    s = ds +:+ rest /\ numeral radix ds m /\ no_digit radix rest.
Proof.
  destruct s as [|c s]; [done|]. simpl.
  destruct (digit_value c) as [d|] eqn:Hd; [|done].
  destruct (d <? radix)%Z eqn:Hlt; [|done].
  apply Z.ltb_lt in Hlt. intros Hparse.
  destruct (parse_digits_more radix s (String c "") d m)
    as (ds & rest & -> & Hnum & Hrest); [by constructor | done |].
  by exists (String c ds), rest.
Qed.

(** After the sign: the prefix, the numeral and the rest. *)
Lemma strip_radix_reads (u : string) (m : Z) :
  (let '(radix, s2) := strip_radix u in parse_digits radix None s2) = Some m
  <->
  exists (prefix digits rest : string) (radix : Z),
    u = prefix +:+ digits +:+ rest /\
    radix_of prefix radix /\
    (prefix = "" ->
       starts_with "0x" (digits +:+ rest) = false /\
       starts_with "0X" (digits +:+ rest) = false) /\
    numeral radix digits m /\
    no_digit radix rest.
Proof.
  split.
  - destruct (strip_radix_cases u)
      as [(v & -> & Hr)|[(v & -> & Hr)|(Hr & Hx & HX)]]; rewrite Hr;
      intros (ds & rest & Hv & Hnum & Hrest)%parse_digits_some.
    + exists "0x", ds, rest, 16%Z. rewrite Hv.
      split_and!; [done | constructor | done | done..].
    + exists "0X", ds, rest, 16%Z. rewrite Hv.
      split_and!; [done | constructor | done | done..].
    + exists "", ds, rest, 10%Z. rewrite <- Hv.
      split_and!; [done | constructor | done | done..].
  - intros (prefix & ds & rest & radix & -> & Hradix & Hcond & Hnum & Hrest).
    destruct Hradix.
    + destruct (Hcond eq_refl) as [Hx HX].
      destruct (strip_radix_cases ("" +:+ ds +:+ rest))
        as [(v & Hv & _)|[(v & Hv & _)|(-> & _ & _)]].
      * change ("" +:+ ds +:+ rest) with (ds +:+ rest) in Hv.
        by rewrite Hv, starts_with_app in Hx.
      * change ("" +:+ ds +:+ rest) with (ds +:+ rest) in Hv.
        by rewrite Hv, starts_with_app in HX.
      * change ("" +:+ ds +:+ rest) with (ds +:+ rest).
        by rewrite (parse_digits_numeral _ _ _ _ Hnum), parse_digits_stop.
    + change (parse_digits 16 None (ds +:+ rest) = Some m).
      by rewrite (parse_digits_numeral _ _ _ _ Hnum), parse_digits_stop.
    + change (parse_digits 16 None (ds +:+ rest) = Some m).
      by rewrite (parse_digits_numeral _ _ _ _ Hnum), parse_digits_stop.
Qed.

(** What follows the sign starts with ["0"] or with a digit. *)
Lemma after_sign_head (prefix ds rest : string) (radix m : Z) :
  radix_of prefix radix ->
  numeral radix ds m ->
  exists (c : ascii) (v : string),
    prefix +:+ ds +:+ rest = String c v /\
    starts_white_space c = false /\
    c <> "+"%char /\ c <> "-"%char.
Proof.
  intros Hradix Hnum. destruct Hradix.
  - destruct (numeral_head _ _ _ Hnum) as (c & ds' & d & -> & Hd & _).
    exists c, (ds' +:+ rest). split; [done|].
    split; [by eapply digit_not_white_space | by eapply digit_not_sign].
  - by exists "0"%char, ("x" +:+ ds +:+ rest).
  - by exists "0"%char, ("X" +:+ ds +:+ rest).
Qed.

Lemma parseInt_unfold (s : string) :
  parseInt s =
    (let '(radix, s2) := strip_radix (strip_sign (skip_white_space s)).2 in
     parse_digits radix None s2)
    ≫= (fun m => to_number ((strip_sign (skip_white_space s)).1 * m)).
Proof.
  unfold parseInt. destruct (strip_sign (skip_white_space s)) as [sgn s1].
  simpl. destruct (strip_radix s1) as [radix s2].
  by destruct (parse_digits radix None s2).
Qed.

(** [parseInt] computes what the language definition says: it returns [n]
    exactly for the strings that read as [n]. *)
Lemma parseInt_reads_as (s : string) (n : Z) :
  parseInt s = Some n <-> reads_as s n.
Proof.
  rewrite parseInt_unfold. unfold reads_as. split.
  - destruct (skip_white_space_split s) as (ws & Hws & Hs).
    intros (m & Hu & Hn)%bind_Some.
    apply strip_radix_reads
      in Hu as (prefix & ds & rest & radix & Hu & Hradix & Hcond & Hnum & Hrest).
    destruct (strip_sign_cases (skip_white_space s))
      as [(u & Ht & Hsign)|[(u & Ht & Hsign)|[Hsign _]]];
      rewrite Hsign in Hu, Hn; cbn [fst snd] in Hu, Hn.
    + exists ws, "-", prefix, ds, rest, (-1)%Z, radix, m.
      rewrite Hs at 1. rewrite Ht, Hu.
      split_and!; [done | done | constructor | done..].
    + exists ws, "+", prefix, ds, rest, 1%Z, radix, m.
      rewrite Hs at 1. rewrite Ht, Hu.
      split_and!; [done | done | constructor | done..].
    + exists ws, "", prefix, ds, rest, 1%Z, radix, m.
      rewrite Hs at 1. rewrite Hu.
      split_and!; [done | done | constructor | done..].
  - intros (ws & sign & prefix & ds & rest & sgn & radix & m & -> & Hws &
            Hsign & Hradix & Hcond & Hnum & Hrest & Hn).
    rewrite skip_white_space_app by done.
    destruct (after_sign_head prefix ds rest radix m Hradix Hnum)
      as (c & v & Hhead & Hnws & Hnp & Hnm).
    assert (Hparse :
      (let '(radix, s2) := strip_radix (prefix +:+ ds +:+ rest) in
       parse_digits radix None s2) = Some m).
    { apply strip_radix_reads. by exists prefix, ds, rest, radix. }
    destruct Hsign.
    + change ("" +:+ prefix +:+ ds +:+ rest) with (prefix +:+ ds +:+ rest).
      rewrite Hhead, (skip_white_space_stop c v Hnws), <- Hhead.
      destruct (strip_sign_cases (prefix +:+ ds +:+ rest))
        as [(u & Ht & _)|[(u & Ht & _)|[Hsign _]]].
      * rewrite Hhead in Ht. by injection Ht as -> _.
      * rewrite Hhead in Ht. by injection Ht as -> _.
      * rewrite Hsign. simpl. by rewrite Hparse.
    + change ("+" +:+ prefix +:+ ds +:+ rest)
        with (String "+" (prefix +:+ ds +:+ rest)).
      rewrite skip_white_space_stop by reflexivity.
      simpl. by rewrite Hparse.
    + change ("-" +:+ prefix +:+ ds +:+ rest)
        with (String "-" (prefix +:+ ds +:+ rest)).
      rewrite skip_white_space_stop by reflexivity.
      simpl. by rewrite Hparse.
Qed.

Lemma parseInt_NaN (s : string) :
  parseInt s = None <-> forall n : Z, ~ reads_as s n.
Proof.
  split.
  - intros Hnone n Hn%parseInt_reads_as. congruence.
  - intros Hno. destruct (parseInt s) as [n|] eqn:Hp; [|done].
    by destruct (Hno n); apply parseInt_reads_as.
Qed.

(** ** Reading the vault *)

(** C1. A caller whose context carries a user with role exactly ["admin"]
    gets from [vaultItems] the whole [vault] array, unfiltered and with the
    state untouched; in particular every item that is neither owned by the
    caller nor public is in the result. *)
Theorem vaultItems_admin_sees_all (context : Context) (u : User.t) (db : Db) :
  user context = Some u ->
  User.role u = "admin" ->
  vaultItems context db = (Ok (vault db), db) /\
  forall i : Item.t,
    i ∈ vault db -> Item.ownerId i <> User.id u -> Item.isPublic i = false ->
    exists items, fst (vaultItems context db) = Ok items /\ i ∈ items.
Proof.
  intros Hu Hrole. unfold vaultItems. rewrite Hu. unfold bind, get_vault.
  destruct (decide (User.role u = "admin")) as [_|Hne]; [|done].
  split; [done|]. intros i Hi _ _. by exists (vault db).
Qed.

(** C2. A caller whose context carries a user with any role other than
    ["admin"] gets from [vaultItems] exactly the items of the vault that
    they own or that are public: no item of the result has a different
    owner while being private. *)
Theorem vaultItems_non_admin_filtered (context : Context) (u : User.t)
    (db : Db) :
  user context = Some u ->
  User.role u <> "admin" ->
  exists items : list Item.t,
    vaultItems context db = (Ok items, db) /\
    (forall i, i ∈ items <->
       i ∈ vault db /\
       (Item.ownerId i = User.id u \/ Item.isPublic i = true)) /\
    (forall i, i ∈ items ->
       ~ (Item.ownerId i <> User.id u /\ Item.isPublic i = false)).
Proof.
  intros Hu Hrole. unfold vaultItems. rewrite Hu. unfold bind, get_vault.
  destruct (decide (User.role u = "admin")) as [He|_]; [done|].
  eexists. split; [reflexivity|]. split.
  - intros i. rewrite list_elem_of_filter, Is_true_true. tauto.
  - intros i [[Ho|Hp] _]%list_elem_of_filter [Hno Hnp]; [done|].
    apply Is_true_true in Hp. congruence.
Qed.

Lemma is_owner_visible (context : Context) (i : Item.t) :
  Item.isPublic i \/ is_owner context i <-> visible context i.
Proof.
  unfold is_owner, visible. rewrite Is_true_true.
  destruct (user context) as [u|]; split.
  - intros [?|?]; [by left | right; by exists u].
  - intros [?|(u' & [= <-] & ?)]; [by left | by right].
  - intros [?|[]]. by left.
  - intros [?|(u' & [=] & ?)]. by left.
Qed.

(** C3. For every context, whatever the role of its user, and every search
    term, [searchVault] returns exactly the items of the vault whose
    content contains the term and that are public or owned by the
    authenticated caller, in the order of the vault. A private item is
    returned only to its owner; the role is never looked at. *)
Theorem searchVault_exact (searchTerm : string) (context : Context)
    (db : Db) :
  exists items : list Item.t,
    searchVault searchTerm context db = (Ok items, db) /\
    items = filter (fun i => includes (Item.content i) searchTerm = true /\
                             visible context i) (vault db) /\
    (forall i, i ∈ items <->
       i ∈ vault db /\ substring_of searchTerm (Item.content i) /\
       visible context i) /\
    (forall i, i ∈ items -> Item.isPublic i = false ->
       exists u, user context = Some u /\ Item.ownerId i = User.id u).
Proof.
  eexists. split; [reflexivity|].
  assert (Hf : filter (fun i => includes (Item.content i) searchTerm /\
                                (Item.isPublic i \/ is_owner context i))
                 (vault db)
               = filter (fun i => includes (Item.content i) searchTerm = true /\
                                  visible context i) (vault db)).
  { apply list_filter_iff. intros i.
    by rewrite is_owner_visible, Is_true_true. }
  rewrite Hf. split; [done|]. split.
  - intros i. rewrite list_elem_of_filter, includes_spec. tauto.
  - intros i [[_ [Hp|Hv]] _]%list_elem_of_filter Hpriv; [congruence | done].
Qed.

(** C10. With the empty search term [searchVault] returns every item the
    caller may see under the visibility rule, since the empty string occurs
    in every content. *)
Theorem searchVault_empty_term (context : Context) (db : Db) :
  searchVault "" context db =
    (Ok (filter (visible context) (vault db)), db) /\
  forall i : Item.t, includes (Item.content i) "" = true.
Proof.
  split; [|intros i; apply includes_empty].
  unfold searchVault, bind, get_vault, ret. do 2 f_equal.
  apply list_filter_iff. intros i.
  rewrite is_owner_visible, includes_empty.
  split; [by intros [_ ?] | by split].
Qed.

(** ** Writing the vault *)

Lemma no_item_with_id (id : string) (v : list Item.t) :
  list_find (fun i => parseInt id = Some (Item.id i)) v = None <->
  forall i, i ∈ v -> parseInt id <> Some (Item.id i).
Proof. by rewrite list_find_None, Forall_forall. Qed.

(** What a successful [makeVaultItemPublic] does, in one place: the first
    item with the given id, at index [k], is replaced by its published copy
    and that copy is returned. *)
Lemma makeVaultItemPublic_found (id : string) (context : Context) (db : Db)
    (k : nat) (item : Item.t) :
  is_Some (user context) ->
  list_find (fun i => parseInt id = Some (Item.id i)) (vault db)
    = Some (k, item) ->
  makeVaultItemPublic id context db =
    (Ok (publish item),
     {| users := users db; vault := <[k := publish item]> (vault db) |}).
Proof.
  intros [u Hu] Hfind. unfold makeVaultItemPublic. rewrite Hu.
  unfold bind, get_vault. by rewrite Hfind.
Qed.

Lemma makeVaultItemPublic_inv (id : string) (context : Context) (db db' : Db)
    (item' : Item.t) :
  makeVaultItemPublic id context db = (Ok item', db') ->
  is_Some (user context) /\
  exists (k : nat) (item : Item.t),
    list_find (fun i => parseInt id = Some (Item.id i)) (vault db)
      = Some (k, item) /\
    item' = publish item /\
    db' = {| users := users db; vault := <[k := publish item]> (vault db) |}.
Proof.
  unfold makeVaultItemPublic. destruct (user context) as [u|]; [|done].
  unfold bind, get_vault.
  destruct (list_find _ (vault db)) as [[k item]|]; [|done].
  intros [= <- <-]. split; [by exists u|]. by exists k, item.
Qed.

(** The outcomes of [makeVaultItemPublic] in terms of what [parseInt]
    returns for the id. *)
Lemma makeVaultItemPublic_cases (id : string) (context : Context)
    (db : Db) :
  (fst (makeVaultItemPublic id context db) = Throw NotAuthenticated <->
     user context = None) /\
  (fst (makeVaultItemPublic id context db) = Throw ItemNotFound <->
     is_Some (user context) /\
     forall i, i ∈ vault db -> ~ parseInt id = Some (Item.id i)) /\
  (is_Some (user context) ->
   (exists i, i ∈ vault db /\ parseInt id = Some (Item.id i)) ->
   exists (k : nat) (item : Item.t),
     vault db !! k = Some item /\
     parseInt id = Some (Item.id item) /\
     (forall j y, vault db !! j = Some y -> (j < k)%nat ->
        ~ parseInt id = Some (Item.id y)) /\
     makeVaultItemPublic id context db =
       (Ok (publish item),
        {| users := users db; vault := <[k := publish item]> (vault db) |}) /\
     Item.isPublic (publish item) = true /\
     <[k := publish item]> (vault db) !! k = Some (publish item)) /\
  (forall e, fst (makeVaultItemPublic id context db) = Throw e ->
     snd (makeVaultItemPublic id context db) = db).
Proof.
  unfold makeVaultItemPublic, bind, get_vault.
  destruct (user context) as [u|] eqn:Hu; simpl.
  - destruct (list_find _ (vault db)) as [[k item]|] eqn:Hfind; simpl.
    + pose proof Hfind as (Hk & Hid & Hleast)%list_find_Some.
      split; [split; done|]. split.
      { split; [done|]. intros [_ Hnone]. exfalso.
        apply (Hnone item); [by eapply list_elem_of_lookup_2 | done]. }
      split; [|done]. intros _ _. exists k, item.
      split_and!; try done.
      apply list_lookup_insert_eq. by eapply lookup_lt_Some.
    + pose proof (proj1 (no_item_with_id _ _) Hfind) as Hnone.
      split; [split; done|]. split.
      { split; [|done]. intros _. split; [by exists u | done]. }
      split; [|done]. intros _ (i & Hi & Hid). by destruct (Hnone i).
  - split; [done|]. split.
    { split; [done|]. by intros [[? [=]] _]. }
    split; [|done]. by intros [? [=]].
Qed.

(** C6. [makeVaultItemPublic] throws "Not authenticated" exactly when the
    context has no user, and throws "Item not found" exactly when the
    context has a user and the id reads as the id of no item of the vault
    (as no number at all, for one). In every other case it sets [isPublic]
    of the first item whose id the given id reads as and returns that
    item; who owns the item plays no part. A throw leaves the state as it
    was. What an id reads as is what the language says [parseInt] makes of
    it: white space, sign and a [0x] prefix in front and anything after
    the digits are allowed. *)
Theorem makeVaultItemPublic_outcomes (id : string) (context : Context)
    (db : Db) :
  (fst (makeVaultItemPublic id context db) = Throw NotAuthenticated <->
     user context = None) /\
  (fst (makeVaultItemPublic id context db) = Throw ItemNotFound <->
     is_Some (user context) /\
     forall i, i ∈ vault db -> ~ reads_as id (Item.id i)) /\
  (is_Some (user context) ->
   (exists i, i ∈ vault db /\ reads_as id (Item.id i)) ->
   exists (k : nat) (item : Item.t),
     vault db !! k = Some item /\
     reads_as id (Item.id item) /\
     (forall j y, vault db !! j = Some y -> (j < k)%nat ->
        ~ reads_as id (Item.id y)) /\
     makeVaultItemPublic id context db =
       (Ok (publish item),
        {| users := users db; vault := <[k := publish item]> (vault db) |}) /\
     Item.isPublic (publish item) = true /\
     <[k := publish item]> (vault db) !! k = Some (publish item)) /\
  (forall e, fst (makeVaultItemPublic id context db) = Throw e ->
     snd (makeVaultItemPublic id context db) = db).
Proof.
  pose proof (makeVaultItemPublic_cases id context db) as Hcases.
  setoid_rewrite parseInt_reads_as in Hcases. exact Hcases.
Qed.

(** C7. Without a user in the context [createVaultItem] throws
    "Not authenticated" and the state, hence the length of the vault, is
    what it was. With a user it appends one item, owned by that user and
    numbered with the length of the vault plus one, and returns it. *)
Theorem createVaultItem_outcomes (content : string) (isPublic : bool)
    (context : Context) (db : Db) :
  (user context = None ->
     createVaultItem content isPublic context db
       = (Throw NotAuthenticated, db)) /\
  (forall u : User.t, user context = Some u ->
     exists (newItem : Item.t) (db' : Db),
       createVaultItem content isPublic context db = (Ok newItem, db') /\
       vault db' = vault db ++ [newItem] /\
       users db' = users db /\
       length (vault db') = S (length (vault db)) /\
       Item.ownerId newItem = User.id u /\
       Item.id newItem = (Z.of_nat (length (vault db)) + 1)%Z /\
       Item.content newItem = content /\
       Item.isPublic newItem = isPublic).
Proof.
  unfold createVaultItem. split.
  - by intros ->.
  - intros u ->. unfold bind, get_vault, set_vault, ret. simpl.
    eexists _, _. split; [reflexivity|]. simpl.
    split_and!; try done. rewrite length_app. simpl. lia.
Qed.

(** C9. When [makeVaultItemPublic] succeeds, the new state differs from the
    old one in one slot of the vault only, and there only in [isPublic]:
    the item keeps its id, owner and content, every other slot of the vault
    holds what it held, the vault has the same length and the users are
    untouched. *)
Theorem makeVaultItemPublic_frame (id : string) (context : Context)
    (db db' : Db) (item' : Item.t) :
  makeVaultItemPublic id context db = (Ok item', db') ->
  users db' = users db /\
  length (vault db') = length (vault db) /\
  exists (k : nat) (item : Item.t),
    vault db !! k = Some item /\
    parseInt id = Some (Item.id item) /\
    vault db' !! k = Some item' /\
    Item.id item' = Item.id item /\
    Item.ownerId item' = Item.ownerId item /\
    Item.content item' = Item.content item /\
    Item.isPublic item' = true /\
    forall j : nat, j <> k -> vault db' !! j = vault db !! j.
Proof.
  intros (_ & k & item & Hfind & -> & ->)%makeVaultItemPublic_inv. simpl.
  apply list_find_Some in Hfind as (Hk & Hid & _).
  split; [done|]. split; [apply length_insert|].
  exists k, item. split_and!; try done.
  - apply list_lookup_insert_eq. by eapply lookup_lt_Some.
  - intros j Hj. by apply list_lookup_insert_ne.
Qed.

(** ** Sessions *)

Lemma find_first {A} (P : A -> Prop) `{forall x, Decision (P x)}
    (l : list A) (k : nat) (x : A) :
  l !! k = Some x -> P x ->
  (forall j y, l !! j = Some y -> (j < k)%nat -> ~ P y) ->
  find P l = Some x.
Proof.
  intros Hk Hx Hleast. unfold find.
  by rewrite (proj2 (list_find_Some P l k x)).
Qed.

Lemma find_none {A} (P : A -> Prop) `{forall x, Decision (P x)}
    (l : list A) :
  (forall x, x ∈ l -> ~ P x) -> find P l = None.
Proof.
  intros Hnone. unfold find.
  by rewrite (proj2 (list_find_None P l)); [|apply Forall_forall].
Qed.

Section Sessions.
Context `{Env, Jwt}.

Lemma authMiddleware_returns (req : Request) (now : Z) (db : Db) :
  exists context : Context, authMiddleware req now db = (Ok context, db).
Proof.
  unfold authMiddleware, try_catch, bind, lift, get_users, ret.
  destruct (decide (default "" (authorization req) = "")); [by eexists|].
  destruct (jwt_verify _ SECRET_KEY now); by eexists.
Qed.

(** C4. [authMiddleware] never throws and never changes the state.
    It answers with a context without user when no credential is
    presented, when [jwt.verify] throws on the credential, whatever the
    error, and when the verified token names a [userId] that no user
    has. *)
Theorem authMiddleware_fails_open (req : Request) (now : Z) (db : Db) :
  (exists context : Context,
     authMiddleware req now db = (Ok context, db)) /\
  (authorization req = None ->
     authMiddleware req now db = (Ok anonymous, db)) /\
  (forall (cred : string) (e : exn),
     authorization req = Some cred ->
     jwt_verify (replace "Bearer " "" cred) SECRET_KEY now = Throw e ->
     authMiddleware req now db = (Ok anonymous, db)) /\
  (forall (cred : string) (decoded : Decoded.t),
     authorization req = Some cred ->
     jwt_verify (replace "Bearer " "" cred) SECRET_KEY now = Ok decoded ->
     (forall u, u ∈ users db ->
        JNumber (User.id u) <> Decoded.userId decoded) ->
     authMiddleware req now db = (Ok anonymous, db)).
Proof.
  unfold authMiddleware, try_catch, bind, lift, get_users, ret, anonymous.
  destruct (authorization req) as [cred|]; simpl.
  - destruct (decide (cred = "")) as [->|Hne].
    + split; [by eexists|]. split; [done|].
      split; [done|]. by intros.
    + destruct (jwt_verify _ SECRET_KEY now) as [decoded|e] eqn:Hv.
      * split; [by eexists|]. split; [done|].
        split; [by intros ? ? [= <-]; rewrite Hv|].
        intros cred' decoded' [= <-]. rewrite Hv. intros [= <-] Hnone.
        rewrite find_none; [done|].
        intros u Hu Heq. apply (Hnone u Hu).
        destruct (Decoded.userId decoded); try done.
        simpl in Heq. by apply bool_decide_unpack in Heq as ->.
      * split; [by eexists|]. split; [done|].
        split; [done|]. intros cred' decoded' [= <-]. by rewrite Hv.
  - split; [by eexists|]. split; [done|]. split; by intros.
Qed.

Lemma seed_login_finds (u : User.t) :
  u ∈ seed_users ->
  find (fun u' => User.username u' = User.username u /\
                  User.password u' = User.password u) seed_users = Some u.
Proof.
  unfold seed_users. rewrite !elem_of_cons, elem_of_nil.
  intros [->|[->|[->|[]]]]; simpl.
  - apply (find_first _ _ 0%nat); [done..|]. lia.
  - apply (find_first _ _ 1%nat); [done..|].
    intros [|j] y; [|lia]. by intros [= <-] _ [[=] _].
  - apply (find_first _ _ 2%nat); [done..|].
    intros [|[|j]] y; [| |lia]; by intros [= <-] _ [[=] _].
Qed.

Lemma seed_id_finds (u : User.t) :
  u ∈ seed_users ->
  find (fun u' => Is_true (strict_eq_number (User.id u')
                             (JNumber (User.id u)))) seed_users = Some u.
Proof.
  unfold seed_users. rewrite !elem_of_cons, elem_of_nil.
  intros [->|[->|[->|[]]]]; simpl.
  - apply (find_first _ _ 0%nat); [done..|]. lia.
  - apply (find_first _ _ 1%nat); [done..|].
    intros [|j] y; [|lia]. by intros [= <-] _ ?.
  - apply (find_first _ _ 2%nat); [done..|].
    intros [|[|j]] y; [| |lia]; by intros [= <-] _ ?.
Qed.

(** No resolver writes to [users]: the hypothesis [users db = seed_users]
    below holds in every state the program reaches. *)
Lemma resolvers_keep_users (db : Db) :
  (forall username password now,
     snd (login username password now db) = db) /\
  (forall context, snd (vaultItems context db) = db) /\
  snd (publicVaultItems db) = db /\
  (forall searchTerm context, snd (searchVault searchTerm context db) = db) /\
  (forall content isPublic context,
     users (snd (createVaultItem content isPublic context db)) = users db) /\
  (forall id context,
     users (snd (makeVaultItemPublic id context db)) = users db) /\
  (forall req now, snd (authMiddleware req now db) = db).
Proof.
  split_and!.
  - intros. unfold login, bind, get_users, lift, ret, throw. simpl.
    destruct (find _ (users db)); [|done]. by destruct (jwt_sign _ _ _).
  - intros. unfold vaultItems, bind, get_vault, ret, throw.
    destruct (user context); [|done]. by destruct (decide _).
  - done.
  - done.
  - intros. unfold createVaultItem. by destruct (user context).
  - intros. unfold makeVaultItemPublic, bind, get_vault, throw.
    destruct (user context); [|done]. simpl.
    by destruct (list_find _ (vault db)) as [[? ?]|].
  - intros.
    by destruct (authMiddleware_returns req now db) as [? ->].
Qed.

(** Logging in with the name and password of a seeded user issues a
    token; until its expiry the token verifies to that user's claims, and
    presented as a bearer credential it resolves to that user. *)
Lemma login_issue_verify (u : User.t) (now now' : Z) (db : Db) :
  jwt_round_trip SECRET_KEY ->
  users db = seed_users ->
  u ∈ seed_users ->
  (now' / 1000 < now / 1000 + 3600)%Z ->
  exists tok : string,
    login (User.username u) (User.password u) now db
      = (Ok {| AuthPayload.token := tok; AuthPayload.user := u |}, db) /\
    jwt_verify tok SECRET_KEY now'
      = Ok {| Decoded.userId := JNumber (User.id u);
              Decoded.role := JString (User.role u);
              Decoded.exp := JNumber (now / 1000 + 3600);
              Decoded.iat := JNumber (now / 1000) |} /\
    authMiddleware {| authorization := Some ("Bearer " +:+ tok) |} now' db
      = (Ok {| user := Some u |}, db).
Proof.
  intros Hjwt Husers Hu Hfresh.
  destruct (Hjwt {| Payload.userId := User.id u;
                    Payload.role := User.role u;
                    Payload.exp := (now / 1000 + 60 * 60)%Z |} now)
    as (tok & Hsign & Hverify).
  specialize (Hverify now' Hfresh). unfold decoded_of in Hverify.
  simpl in Hverify.
  exists tok. split_and!.
  - unfold login, bind, get_users, lift, ret. simpl.
    by rewrite Husers, (seed_login_finds u Hu), Hsign.
  - done.
  - unfold authMiddleware, try_catch, bind, lift, get_users, ret.
    change (default "" (authorization
              {| authorization := Some ("Bearer " +:+ tok) |}))
      with ("Bearer " +:+ tok).
    destruct (decide ("Bearer " +:+ tok = "")) as [E|_]; [done|].
    rewrite (replace_prefix "Bearer " "" tok).
    change ("" +:+ tok) with tok.
    rewrite Hverify, Husers. cbn [Decoded.userId].
    by rewrite (seed_id_finds u Hu).
Qed.

(** C5. For every seeded user, the token [login] issues at time [now],
    verified before a full hour has passed on the clock (at once, for
    one), carries the user's id as [userId], the user's role as [role]
    and [exp] equal to the second of issue plus 3600. *)
Theorem login_token_claims (u : User.t) (now now' : Z) (db : Db) :
  jwt_round_trip SECRET_KEY ->
  users db = seed_users ->
  u ∈ seed_users ->
  (now' / 1000 < now / 1000 + 3600)%Z ->
  exists (tok : string) (claims : Decoded.t),
    login (User.username u) (User.password u) now db
      = (Ok {| AuthPayload.token := tok; AuthPayload.user := u |}, db) /\
    jwt_verify tok SECRET_KEY now' = Ok claims /\
    Decoded.userId claims = JNumber (User.id u) /\
    Decoded.role claims = JString (User.role u) /\
    Decoded.exp claims = JNumber (now / 1000 + 3600) /\
    authMiddleware {| authorization := Some ("Bearer " +:+ tok) |} now' db
      = (Ok {| user := Some u |}, db).
Proof.
  intros Hjwt Husers Hu Hfresh.
  destruct (login_issue_verify u now now' db Hjwt Husers Hu Hfresh)
    as (tok & Hlogin & Hverify & Hauth).
  eexists tok, _. split_and!; [exact Hlogin | exact Hverify | done..].
Qed.
End Sessions.

(** ** The seeded scenario *)

Section Scenario.
Context `{Env, Jwt}.

(** C8, as the code has it. On the seeded arrays item 2 belongs to
    identity 2 and is private, and identity 1 has the role ["admin"].
    When identity 1 logs in, presents the token within the hour and
    calls [makeVaultItemPublic] on ["2"], the call returns item 2 with
    [isPublic] set, and the public items an anonymous request then gets
    include it. *)
Theorem seeded_scenario_admin (now now' : Z) :
  jwt_round_trip SECRET_KEY ->
  (now' / 1000 < now / 1000 + 3600)%Z ->
  seeded_scenario (fun r => r = "admin") now now'.
Proof.
  intros Hjwt Hfresh.
  pose (u1 := User.mk 1 "stewie" ADMIN_PASSWORD "admin").
  assert (Hu1 : u1 ∈ seed_users) by (apply elem_of_cons; by left).
  destruct (login_issue_verify u1 now now' seed Hjwt eq_refl Hu1 Hfresh)
    as (tok & Hlogin & _ & Hauth).
  pose (item2 := Item.mk 2 2 "Nothing to see here" false).
  exists u1, (User.mk 2 "admin" "admin" "admiin"), item2, tok,
    {| users := seed_users;
       vault := [ Item.mk 1 1 FLAG false; publish item2;
                  Item.mk 3 1 "Public note" true;
                  Item.mk 4 1 "FAKE_FLAG{dummy_flag}" false ] |}.
  split_and!; try done.
  exists [publish item2; Item.mk 3 1 "Public note" true].
  split; [reflexivity | apply elem_of_cons; by left].
Qed.
End Scenario.

(** ** The toy tokens meet the contract *)

Module ToyJwtFacts.
Import ToyJwt.

Lemma dec_pos_enc (p : positive) (rest : string) :
  dec_pos (enc_pos p +:+ rest) = Some (p, rest).
Proof.
  induction p as [q IH|q IH|]; [| |done].
  - change (dec_pos (String "1" (enc_pos q +:+ rest)) = Some (q~1%positive, rest)).
    simpl. by rewrite IH.
  - change (dec_pos (String "0" (enc_pos q +:+ rest)) = Some (q~0%positive, rest)).
    simpl. by rewrite IH.
Qed.

Lemma dec_Z_enc (z : Z) (rest : string) :
  dec_Z (enc_Z z +:+ rest) = Some (z, rest).
Proof.
  destruct z as [|p|p]; [done| |].
  - change (dec_Z (String "p" (enc_pos p +:+ rest)) = Some (Z.pos p, rest)).
    simpl. by rewrite dec_pos_enc.
  - change (dec_Z (String "n" (enc_pos p +:+ rest)) = Some (Z.neg p, rest)).
    simpl. by rewrite dec_pos_enc.
Qed.

Lemma round_trip (key : string) : @jwt_round_trip jwt key.
Proof.
  intros p now. eexists. split; [reflexivity|]. intros now' Hfresh.
  simpl. unfold verify.
  rewrite starts_with_app, string_drop_app, !dec_Z_enc.
  apply Z.ltb_lt in Hfresh. by rewrite Hfresh.
Qed.
End ToyJwtFacts.

(** ** The properties at work on the seeded state *)

Module Instances.
Import ToyJwt.

Lemma vaultItems_admin_sees_all_seed :
  user {| user := Some stewie |} = Some stewie /\
  User.role stewie = "admin" /\
  vaultItems {| user := Some stewie |} db0 = (Ok (vault db0), db0) /\
  forall i : Item.t,
    i ∈ vault db0 -> Item.ownerId i <> User.id stewie ->
    Item.isPublic i = false ->
    exists items,
      fst (vaultItems {| user := Some stewie |} db0) = Ok items /\
      i ∈ items.
Proof.
  split; [reflexivity|]. split; [reflexivity|].
  apply (vaultItems_admin_sees_all {| user := Some stewie |} stewie db0);
    reflexivity.
Defined.

Lemma vaultItems_non_admin_filtered_seed :
  user {| user := Some admin |} = Some admin /\
  User.role admin <> "admin" /\
  exists items : list Item.t,
    vaultItems {| user := Some admin |} db0 = (Ok items, db0) /\
    (forall i, i ∈ items <->
       i ∈ vault db0 /\
       (Item.ownerId i = User.id admin \/ Item.isPublic i = true)) /\
    (forall i, i ∈ items ->
       ~ (Item.ownerId i <> User.id admin /\ Item.isPublic i = false)).
Proof.
  split; [reflexivity|]. split; [discriminate|].
  apply (vaultItems_non_admin_filtered {| user := Some admin |} admin db0);
    [reflexivity | discriminate].
Defined.

Lemma authMiddleware_fails_open_forged :
  @jwt_verify jwt (replace "Bearer " "" "Bearer forged")
    (@SECRET_KEY env) 5000 = Throw (Error "invalid signature") /\
  @authMiddleware env jwt {| authorization := Some "Bearer forged" |}
    5000 db0 = (Ok anonymous, db0).
Proof.
  split; [reflexivity|].
  apply (proj1 (proj2 (proj2
           (@authMiddleware_fails_open env jwt
              {| authorization := Some "Bearer forged" |} 5000 db0)))
           "Bearer forged" (Error "invalid signature"));
    reflexivity.
Defined.

Lemma login_token_claims_user1 :
  @jwt_round_trip jwt (@SECRET_KEY env) /\
  users db0 = @seed_users env /\
  user1 ∈ @seed_users env /\
  (5000 / 1000 < 5000 / 1000 + 3600)%Z /\
  exists (tok : string) (claims : Decoded.t),
    @login env jwt (User.username user1) (User.password user1) 5000 db0
      = (Ok {| AuthPayload.token := tok; AuthPayload.user := user1 |},
         db0) /\
    @jwt_verify jwt tok (@SECRET_KEY env) 5000 = Ok claims /\
    Decoded.userId claims = JNumber (User.id user1) /\
    Decoded.role claims = JString (User.role user1) /\
    Decoded.exp claims = JNumber (5000 / 1000 + 3600) /\
    @authMiddleware env jwt
      {| authorization := Some ("Bearer " +:+ tok) |} 5000 db0
      = (Ok {| user := Some user1 |}, db0).
Proof.
  assert (Hu : user1 ∈ @seed_users env) by repeat constructor.
  split; [apply ToyJwtFacts.round_trip|]. split; [reflexivity|].
  split; [exact Hu|]. split; [reflexivity|].
  apply (@login_token_claims env jwt user1 5000 5000 db0);
    [apply ToyJwtFacts.round_trip | reflexivity | exact Hu | reflexivity].
Defined.

Lemma items_db0 (i : Item.t) :
  i ∈ vault db0 ->
  Item.id i = 1%Z \/ Item.id i = 2%Z \/ Item.id i = 3%Z \/ Item.id i = 4%Z.
Proof.
  unfold db0, seed, seed_vault. simpl.
  rewrite !elem_of_cons, elem_of_nil.
  intros [-> | [-> | [-> | [-> | []]]]]; simpl; tauto.
Qed.

Lemma makeVaultItemPublic_outcomes_seed :
  let id := utf8 [194; 160] +:+ " 2nd" in
  let caller := {| user := Some user1 |} in
  is_Some (user caller) /\
  (exists i, i ∈ vault db0 /\ reads_as id (Item.id i)) /\
  (exists (k : nat) (item : Item.t),
     vault db0 !! k = Some item /\
     reads_as id (Item.id item) /\
     (forall j y, vault db0 !! j = Some y -> (j < k)%nat ->
        ~ reads_as id (Item.id y)) /\
     makeVaultItemPublic id caller db0 =
       (Ok (publish item),
        {| users := users db0;
           vault := <[k := publish item]> (vault db0) |}) /\
     Item.isPublic (publish item) = true /\
     <[k := publish item]> (vault db0) !! k = Some (publish item)) /\
  (forall i, i ∈ vault db0 -> ~ reads_as "7" (Item.id i)) /\
  fst (makeVaultItemPublic "7" caller db0) = Throw ItemNotFound.
Proof.
  intros id caller.
  assert (Hu : is_Some (user caller)) by by eexists.
  assert (Hi : exists i, i ∈ vault db0 /\ reads_as id (Item.id i)).
  { exists (Item.mk 2 2 "Nothing to see here" false).
    split; [repeat constructor | by apply parseInt_reads_as]. }
  assert (H7 : forall i, i ∈ vault db0 -> ~ reads_as "7" (Item.id i)).
  { intros i Hi7 Hr%parseInt_reads_as.
    change (parseInt "7") with (Some 7%Z) in Hr.
    injection Hr as Hr. apply items_db0 in Hi7. lia. }
  split; [exact Hu|]. split; [exact Hi|]. split; [|split; [exact H7|]].
  - exact (proj1 (proj2 (proj2
             (makeVaultItemPublic_outcomes id caller db0))) Hu Hi).
  - exact (proj2 (proj1 (proj2
             (makeVaultItemPublic_outcomes "7" caller db0))) (conj Hu H7)).
Defined.

Lemma createVaultItem_outcomes_seed :
  user anonymous = None /\
  createVaultItem "mine" false anonymous db0
    = (Throw NotAuthenticated, db0).
Proof.
  split; [reflexivity|].
  apply (proj1 (createVaultItem_outcomes "mine" false anonymous db0)).
  reflexivity.
Defined.

Lemma seeded_scenario_admin_toy :
  @jwt_round_trip jwt (@SECRET_KEY env) /\
  (5000 / 1000 < 5000 / 1000 + 3600)%Z /\
  @seeded_scenario env jwt (fun r => r = "admin") 5000 5000.
Proof.
  split; [apply ToyJwtFacts.round_trip|]. split; [reflexivity|].
  apply (@seeded_scenario_admin env jwt 5000 5000);
    [apply ToyJwtFacts.round_trip | reflexivity].
Defined.

(** C8, as the specification words it, fails: it calls identity 1 a
    non-admin, and the first seeded user, whose id is 1, has the role
    ["admin"]. *)
Lemma seeded_identity_1_is_admin :
  ~ @seeded_scenario env jwt (fun r => r <> "admin") 5000 5000.
Proof.
  intros (u1 & u2 & item2 & tok & db' & Hu1 & _ & Hrole & _).
  injection Hu1 as <-. by apply Hrole.
Qed.

Lemma makeVaultItemPublic_frame_seed :
  let item' := Item.mk 2 2 "Nothing to see here" true in
  let db' := {| users := users db0;
                vault := <[1%nat := item']> (vault db0) |} in
  makeVaultItemPublic "2" {| user := Some user1 |} db0 = (Ok item', db') /\
  users db' = users db0 /\
  length (vault db') = length (vault db0) /\
  exists (k : nat) (item : Item.t),
    vault db0 !! k = Some item /\
    parseInt "2" = Some (Item.id item) /\
    vault db' !! k = Some item' /\
    Item.id item' = Item.id item /\
    Item.ownerId item' = Item.ownerId item /\
    Item.content item' = Item.content item /\
    Item.isPublic item' = true /\
    forall j : nat, j <> k -> vault db' !! j = vault db0 !! j.
Proof.
  intros item' db'. split; [reflexivity|].
  apply (makeVaultItemPublic_frame "2" {| user := Some user1 |} db0 db'
           item').
  reflexivity.
Defined.
End Instances.

(** * Further properties of the code *)

(** ** Logging in and resolving a session *)

Lemma find_Some_inv {A} (P : A -> Prop) `{forall x, Decision (P x)}
    (l : list A) (x : A) :
  find P l = Some x -> x ∈ l /\ P x.
Proof.
  unfold find. destruct (list_find P l) as [[k y]|] eqn:E; [|done].
  intros [= <-]. apply list_find_Some in E as (Hk & HP & _).
  split; [by eapply list_elem_of_lookup_2 | done].
Qed.

Lemma find_ext {A} (P Q : A -> Prop) `{forall x, Decision (P x)}
    `{forall x, Decision (Q x)} (l : list A) :
  (forall x, P x <-> Q x) -> find P l = find Q l.
Proof. intros HPQ. unfold find. f_equal. by apply list_find_ext. Qed.

Lemma strict_eq_number_spec (n : Z) (v : jsval) :
  Is_true (strict_eq_number n v) <-> v = JNumber n.
Proof.
  destruct v as [|m|s|]; simpl; try (split; [intros [] | done]).
  rewrite bool_decide_spec. split; [by intros -> | by intros [= ->]].
Qed.

Lemma replace_absent (pat rep s : string) :
  includes s pat = false -> replace pat rep s = s.
Proof.
  induction s as [|c s IH]; simpl.
  - intros [-> _]%orb_false_elim. done.
  - intros [-> Hs]%orb_false_elim. by rewrite (IH Hs).
Qed.

Section MoreSessions.
Context `{Env, Jwt}.

(** What [authMiddleware] answers for a credential that verifies: the
    first user whose id is the [userId] of the token, or no user. *)
Lemma authMiddleware_verified (req : Request) (now : Z) (db : Db)
    (cred : string) (decoded : Decoded.t) (n : Z) :
  authorization req = Some cred ->
  cred <> "" ->
  jwt_verify (replace "Bearer " "" cred) SECRET_KEY now = Ok decoded ->
  Decoded.userId decoded = JNumber n ->
  authMiddleware req now db
    = (Ok {| user := find (fun u => User.id u = n) (users db) |}, db).
Proof.
  intros Hreq Hne Hv Hid.
  unfold authMiddleware, try_catch, bind, lift, get_users, ret.
  rewrite Hreq. simpl. destruct (decide (cred = "")) as [?|_]; [done|].
  rewrite Hv, Hid. do 3 f_equal. apply find_ext. intros u.
  rewrite strict_eq_number_spec. split; congruence.
Qed.

(** X1. [login] with a name and a password that no user has together
    throws "Invalid credentials": nothing is signed, and the state is left
    as it was. A right name with a wrong password is such a pair. *)
Theorem login_rejects_mismatch (username password : string) (now : Z)
    (db : Db) :
  (forall u, u ∈ users db ->
     ~ (User.username u = username /\ User.password u = password)) ->
  login username password now db = (Throw InvalidCredentials, db).
Proof.
  intros Hnone. unfold login, bind, get_users. simpl.
  by rewrite find_none.
Qed.

(** X2. When [login] returns, the user it returns is one of [users] and
    has exactly the given name and the given password; the token is what
    [jwt.sign] made of that user's id and role with an expiry one hour
    after [now]; the state is unchanged. *)
Theorem login_sound (username password : string) (now : Z) (db db' : Db)
    (a : AuthPayload.t) :
  login username password now db = (Ok a, db') ->
  db' = db /\
  AuthPayload.user a ∈ users db /\
  User.username (AuthPayload.user a) = username /\
  User.password (AuthPayload.user a) = password /\
  jwt_sign {| Payload.userId := User.id (AuthPayload.user a);
              Payload.role := User.role (AuthPayload.user a);
              Payload.exp := (now / 1000 + 3600)%Z |} SECRET_KEY now
    = Ok (AuthPayload.token a).
Proof.
  unfold login, bind, get_users, lift, ret, throw. simpl.
  destruct (find _ (users db)) as [u|] eqn:Hfind; [|done].
  apply find_Some_inv in Hfind as (Hu & Hname & Hpw).
  destruct (jwt_sign _ SECRET_KEY now) as [tok|e] eqn:Hsign; [|done].
  intros [= <- <-]. simpl. by split_and!.
Qed.

(** X3. A context with a user only comes out of [authMiddleware] for a
    non-empty credential that [jwt.verify] accepted, and the user is one
    of [users] whose id is the [userId] of the token. *)
Theorem authMiddleware_sound (req : Request) (now : Z) (db db' : Db)
    (context : Context) (u : User.t) :
  authMiddleware req now db = (Ok context, db') ->
  user context = Some u ->
  u ∈ users db /\
  exists (cred : string) (decoded : Decoded.t),
    authorization req = Some cred /\
    cred <> "" /\
    jwt_verify (replace "Bearer " "" cred) SECRET_KEY now = Ok decoded /\
    Decoded.userId decoded = JNumber (User.id u).
Proof.
  unfold authMiddleware, try_catch, bind, lift, get_users, ret.
  destruct (authorization req) as [cred|]; simpl; [|by intros [= <- _] [=]].
  destruct (decide (cred = "")) as [->|Hne]; [by intros [= <- _] [=]|].
  destruct (jwt_verify _ SECRET_KEY now) as [decoded|e] eqn:Hv;
    [|by intros [= <- _] [=]].
  intros [= <- _]. simpl. intros (Hu & Hid)%find_Some_inv.
  apply strict_eq_number_spec in Hid.
  split; [done|]. by exists cred, decoded.
Qed.

(** X4. The prefix is optional: a credential in which ["Bearer "] does not
    occur resolves to the same context with and without the prefix in
    front of it. *)
Theorem authMiddleware_bearer_optional (cred : string) (now : Z) (db : Db) :
  cred <> "" ->
  includes cred "Bearer " = false ->
  authMiddleware {| authorization := Some ("Bearer " +:+ cred) |} now db
    = authMiddleware {| authorization := Some cred |} now db.
Proof.
  intros Hne Habsent.
  unfold authMiddleware, try_catch, bind, lift, get_users, ret.
  change (default "" (authorization
            {| authorization := Some ("Bearer " +:+ cred) |}))
    with ("Bearer " +:+ cred).
  change (default "" (authorization {| authorization := Some cred |}))
    with cred.
  destruct (decide ("Bearer " +:+ cred = "")) as [?|_]; [done|].
  destruct (decide (cred = "")) as [?|_]; [done|].
  rewrite (replace_prefix "Bearer " "" cred).
  change ("" +:+ cred) with cred.
  by rewrite (replace_absent "Bearer " "" cred Habsent).
Qed.
End MoreSessions.

(** ** How the three ways of reading the vault relate *)

(** X5. Searching never shows a logged-in caller more than listing does:
    for a context with a user, whatever the role, every item [searchVault]
    returns is among the items [vaultItems] returns. *)
Theorem searchVault_within_vaultItems (searchTerm : string)
    (context : Context) (u : User.t) (db : Db) :
  user context = Some u ->
  exists found listed : list Item.t,
    searchVault searchTerm context db = (Ok found, db) /\
    vaultItems context db = (Ok listed, db) /\
    forall i, i ∈ found -> i ∈ listed.
Proof.
  intros Hu. unfold searchVault, vaultItems, bind, get_vault, ret.
  rewrite Hu. destruct (decide (User.role u = "admin")) as [_|_].
  - eexists _, _. split_and!; [done..|].
    by intros i [_ ?]%list_elem_of_filter.
  - eexists _, _. split_and!; [done..|].
    intros i [[_ Hv] Hi]%list_elem_of_filter.
    apply list_elem_of_filter. split; [|done].
    unfold is_owner in Hv. rewrite Hu in Hv. tauto.
Qed.

(** X6. For a user who is not an admin, listing is searching for the empty
    string: [vaultItems] and [searchVault] with [""] return the same list in
    the same order. *)
Theorem vaultItems_is_empty_search (context : Context) (u : User.t)
    (db : Db) :
  user context = Some u ->
  User.role u <> "admin" ->
  vaultItems context db = searchVault "" context db.
Proof.
  intros Hu Hrole. unfold searchVault, vaultItems, bind, get_vault, ret.
  rewrite Hu. destruct (decide (User.role u = "admin")) as [?|_]; [done|].
  do 2 f_equal. apply list_filter_iff. intros i.
  rewrite includes_empty. unfold is_owner. rewrite Hu. simpl. tauto.
Qed.

(** X7. Without a user in the context, [searchVault] is a search among the
    public items: it returns the items of [publicVaultItems] whose content
    contains the term, and with the empty term all of them. *)
Theorem searchVault_anonymous_is_public (searchTerm : string)
    (context : Context) (db : Db) :
  user context = None ->
  exists public : list Item.t,
    publicVaultItems db = (Ok public, db) /\
    searchVault searchTerm context db
      = (Ok (filter (fun i => includes (Item.content i) searchTerm = true)
               public), db) /\
    searchVault "" context db = (Ok public, db).
Proof.
  intros Hu. unfold searchVault, publicVaultItems, bind, get_vault, ret.
  eexists. split; [reflexivity|]. split.
  - do 2 f_equal. rewrite list_filter_filter. apply list_filter_iff.
    intros i. unfold is_owner. rewrite Hu, Is_true_true. tauto.
  - do 2 f_equal. apply list_filter_iff. intros i.
    rewrite includes_empty. unfold is_owner. rewrite Hu.
    split; [by intros [_ [?|[]]] | by split; [|left]].
Qed.

(** X8. A public item of the vault is returned by [publicVaultItems], by
    [vaultItems] for every context with a user, and by [searchVault] for
    every context and every term its content contains. *)
Theorem public_item_seen_by_all (i : Item.t) (db : Db) :
  i ∈ vault db ->
  Item.isPublic i = true ->
  (exists public, publicVaultItems db = (Ok public, db) /\ i ∈ public) /\
  (forall context, is_Some (user context) ->
     exists listed, vaultItems context db = (Ok listed, db) /\ i ∈ listed) /\
  (forall context searchTerm,
     substring_of searchTerm (Item.content i) ->
     exists found,
       searchVault searchTerm context db = (Ok found, db) /\ i ∈ found).
Proof.
  intros Hi Hp. split_and!.
  - eexists. split; [reflexivity|].
    apply list_elem_of_filter. by rewrite Hp.
  - intros context [u Hu]. unfold vaultItems, bind, get_vault, ret.
    rewrite Hu. destruct (decide (User.role u = "admin")).
    + by eexists.
    + eexists. split; [reflexivity|]. apply list_elem_of_filter.
      split; [|done]. right. by rewrite Hp.
  - intros context searchTerm Hsub%includes_spec.
    eexists. split; [reflexivity|]. apply list_elem_of_filter.
    split; [|done]. rewrite Hsub, Hp. by split; [|left].
Qed.

(** ** Publishing and creating *)

Lemma publish_found (id : string) (v : list Item.t) (k : nat)
    (item : Item.t) :
  list_find (fun i => parseInt id = Some (Item.id i)) v = Some (k, item) ->
  list_find (fun i => parseInt id = Some (Item.id i))
    (<[k := publish item]> v) = Some (k, publish item).
Proof.
  intros (Hk & Hid & Hleast)%list_find_Some. apply list_find_Some.
  split_and!.
  - apply list_lookup_insert_eq. by eapply lookup_lt_Some.
  - done.
  - intros j y Hj Hlt. rewrite list_lookup_insert_ne in Hj by lia.
    by apply (Hleast j).
Qed.

(** X9. Publishing is idempotent: when [makeVaultItemPublic] has returned,
    the same call on the state it left returns the same item and leaves
    the same state. *)
Theorem makeVaultItemPublic_idempotent (id : string) (context : Context)
    (db db' : Db) (item' : Item.t) :
  makeVaultItemPublic id context db = (Ok item', db') ->
  makeVaultItemPublic id context db' = (Ok item', db').
Proof.
  intros (Hu & k & item & Hfind & -> & ->)%makeVaultItemPublic_inv.
  apply publish_found in Hfind.
  rewrite (makeVaultItemPublic_found id context
             {| users := users db; vault := <[k := publish item]> (vault db) |}
             k (publish item) Hu Hfind).
  simpl. by rewrite list_insert_insert_eq.
Qed.

Lemma starts_with_refl (s : string) : starts_with s s = true.
Proof.
  induction s as [|c s IH]; simpl; [done|].
  by rewrite bool_decide_eq_true_2, IH.
Qed.

Lemma includes_self (s : string) : includes s s = true.
Proof. destruct s; simpl; [done|]. by rewrite bool_decide_eq_true_2, starts_with_refl. Qed.

(** X10. An item just created is listed for its creator and found by its
    creator under its own content; it is among the public items exactly
    when it was created public; and when it was created private no search
    by anyone else, logged in under another id or not at all, finds it. *)
Theorem createVaultItem_then_read (content : string) (isPublic : bool)
    (context : Context) (u : User.t) (db db' : Db) (newItem : Item.t) :
  user context = Some u ->
  createVaultItem content isPublic context db = (Ok newItem, db') ->
  (exists listed,
     vaultItems context db' = (Ok listed, db') /\ newItem ∈ listed) /\
  (exists found,
     searchVault content context db' = (Ok found, db') /\ newItem ∈ found) /\
  (exists public,
     publicVaultItems db' = (Ok public, db') /\
     (newItem ∈ public <-> isPublic = true)) /\
  (isPublic = false ->
   forall (other : Context) (searchTerm : string),
     (forall u', user other = Some u' -> User.id u' <> User.id u) ->
     exists found,
       searchVault searchTerm other db' = (Ok found, db') /\
       newItem ∉ found).
Proof.
  intros Hu. unfold createVaultItem. rewrite Hu.
  unfold bind, get_vault, set_vault, ret. simpl. intros [= <- <-].
  set (newItem := Item.mk _ _ _ _).
  assert (Hin : newItem ∈ vault db ++ [newItem]).
  { apply elem_of_app. right. by apply list_elem_of_singleton. }
  split_and!.
  - unfold vaultItems, bind, get_vault, ret. rewrite Hu. simpl.
    destruct (decide (User.role u = "admin")); [by eexists|].
    eexists. split; [reflexivity|]. apply list_elem_of_filter.
    split; [by left | done].
  - eexists. split; [reflexivity|]. apply list_elem_of_filter.
    split; [|done]. split.
    + apply Is_true_true, includes_self.
    + right. unfold is_owner. by rewrite Hu.
  - eexists. split; [reflexivity|]. simpl.
    rewrite list_elem_of_filter, Is_true_true. simpl. tauto.
  - intros -> other searchTerm Hother.
    eexists. split; [reflexivity|].
    intros [[_ [[]|Hown]] _]%list_elem_of_filter.
    unfold is_owner in Hown. destruct (user other) as [u'|]; [|done].
    by apply (Hother u').
Qed.

(** On a vault numbered by position, the first item with id [n] is the one
    in slot [n - 1]. *)
Lemma numbered_find (id : string) (n : Z) (v : list Item.t) (item : Item.t) :
  numbered v ->
  parseInt id = Some n ->
  v !! Z.to_nat (n - 1) = Some item ->
  (1 <= n)%Z ->
  list_find (fun i => parseInt id = Some (Item.id i)) v
    = Some (Z.to_nat (n - 1), item).
Proof.
  intros Hnum Hid Hk Hn. apply list_find_Some. split_and!; [done| |].
  - rewrite Hid, (Hnum _ _ Hk). f_equal. lia.
  - intros j y Hj Hlt. rewrite Hid, (Hnum _ _ Hj). intros [= ->]. lia.
Qed.

(** On a vault numbered by position, the outcome of
    [makeVaultItemPublic] from the number [parseInt] returns. *)
Lemma makeVaultItemPublic_by_parseInt (id : string) (context : Context)
    (db : Db) :
  numbered (vault db) ->
  is_Some (user context) ->
  (forall n : Z,
     parseInt id = Some n ->
     (1 <= n <= Z.of_nat (length (vault db)))%Z ->
     exists item : Item.t,
       vault db !! Z.to_nat (n - 1) = Some item /\
       makeVaultItemPublic id context db =
         (Ok (publish item),
          {| users := users db;
             vault := <[Z.to_nat (n - 1) := publish item]> (vault db) |})) /\
  ((parseInt id = None \/
    exists n : Z,
      parseInt id = Some n /\
      (n < 1 \/ Z.of_nat (length (vault db)) < n)%Z) ->
   makeVaultItemPublic id context db = (Throw ItemNotFound, db)).
Proof.
  intros Hnum Hu. split.
  - intros n Hid Hn.
    destruct (lookup_lt_is_Some_2 (vault db) (Z.to_nat (n - 1)))
      as [item Hk]; [lia|].
    exists item. split; [done|].
    apply makeVaultItemPublic_found; [done|].
    apply (numbered_find id n); [done..|lia].
  - intros Hbad. destruct Hu as [u Hu].
    unfold makeVaultItemPublic, bind, get_vault. rewrite Hu. simpl.
    rewrite (proj2 (no_item_with_id id (vault db))); [done|].
    intros i [k Hk]%list_elem_of_lookup_1 Hid.
    pose proof (Hnum k i Hk) as Hi.
    pose proof (lookup_lt_Some _ _ _ Hk) as Hlt.
    destruct Hbad as [Hnan|(n & Hn & Hrange)]; [congruence|].
    rewrite Hn in Hid. injection Hid as ->. lia.
Qed.

(** X11. On a vault numbered by position (as every state the program
    reaches is), [makeVaultItemPublic] by a logged-in caller succeeds for
    an id that reads as a number [n] from 1 to the length of the vault,
    and then it is slot [n - 1] that is published; for an id that reads
    as a number outside that range, and for one that reads as no number,
    it throws "Item not found" and leaves the state as it was. An id reads
    as a number the way the language says [parseInt] reads it. *)
Theorem makeVaultItemPublic_by_number (id : string) (context : Context)
    (db : Db) :
  numbered (vault db) ->
  is_Some (user context) ->
  (forall n : Z,
     reads_as id n ->
     (1 <= n <= Z.of_nat (length (vault db)))%Z ->
     exists item : Item.t,
       vault db !! Z.to_nat (n - 1) = Some item /\
       makeVaultItemPublic id context db =
         (Ok (publish item),
          {| users := users db;
             vault := <[Z.to_nat (n - 1) := publish item]> (vault db) |})) /\
  (((forall n : Z, ~ reads_as id n) \/
    exists n : Z,
      reads_as id n /\
      (n < 1 \/ Z.of_nat (length (vault db)) < n)%Z) ->
   makeVaultItemPublic id context db = (Throw ItemNotFound, db)).
Proof.
  intros Hnum Hu.
  pose proof (makeVaultItemPublic_by_parseInt id context db Hnum Hu)
    as Hcases.
  setoid_rewrite parseInt_reads_as in Hcases.
  rewrite parseInt_NaN in Hcases. exact Hcases.
Qed.

(** ** What a request can do to the state *)

Lemma numbered_snoc (v : list Item.t) (ownerId : Z) (content : string)
    (isPublic : bool) :
  numbered v ->
  numbered (v ++ [Item.mk (Z.of_nat (length v) + 1) ownerId content isPublic]).
Proof.
  intros Hnum k i [[_ Hk]|[-> <-]]%lookup_snoc_Some; [by apply Hnum | done].
Qed.

Lemma numbered_publish (v : list Item.t) (k : nat) (item : Item.t) :
  numbered v -> v !! k = Some item -> numbered (<[k := publish item]> v).
Proof.
  intros Hnum Hk j i [(-> & <- & _)|[Hne Hj]]%list_lookup_insert_Some.
  - by apply (Hnum j item).
  - by apply Hnum.
Qed.

Lemma numbered_NoDup (v : list Item.t) :
  numbered v -> NoDup (Item.id <$> v).
Proof.
  intros Hnum. apply NoDup_alt. intros j k n.
  rewrite !list_lookup_fmap.
  intros (i & Hj & ->)%fmap_Some (i' & Hk & Hid)%fmap_Some.
  rewrite (Hnum _ _ Hj), (Hnum _ _ Hk) in Hid. lia.
Qed.

Lemma grows_refl (v : list Item.t) : grows v v.
Proof. split; [done|]. intros k i Hk. by exists i. Qed.

Lemma grows_trans (v1 v2 v3 : list Item.t) :
  grows v1 v2 -> grows v2 v3 -> grows v1 v3.
Proof.
  intros [Hl12 H12] [Hl23 H23]. split; [lia|]. intros k i Hk.
  destruct (H12 k i Hk) as (i2 & Hk2 & Hid2 & Ho2 & Hc2 & Hp2).
  destruct (H23 k i2 Hk2) as (i3 & Hk3 & Hid3 & Ho3 & Hc3 & Hp3).
  exists i3. split_and!; [done|congruence..|auto].
Qed.

Lemma grows_snoc (v : list Item.t) (x : Item.t) : grows v (v ++ [x]).
Proof.
  split; [rewrite length_app; lia|]. intros k i Hk. exists i.
  split_and!; try done. by apply lookup_app_l_Some.
Qed.

Lemma grows_publish (v : list Item.t) (k : nat) (item : Item.t) :
  v !! k = Some item -> grows v (<[k := publish item]> v).
Proof.
  intros Hk. split; [by rewrite length_insert|]. intros j i Hj.
  destruct (decide (j = k)) as [->|Hne].
  - exists (publish item). rewrite Hk in Hj. injection Hj as <-.
    split_and!; try done.
    apply list_lookup_insert_eq. by eapply lookup_lt_Some.
  - exists i. split_and!; try done. by rewrite list_lookup_insert_ne.
Qed.

Section Requests.
Context `{Env, Jwt}.

Lemma authMiddleware_user_in (req : Request) (now : Z) (db db' : Db)
    (context : Context) (u : User.t) :
  authMiddleware req now db = (Ok context, db') ->
  user context = Some u ->
  u ∈ users db.
Proof.
  unfold authMiddleware, try_catch, bind, lift, get_users, ret.
  destruct (decide (default "" (authorization req) = ""));
    [by intros [= <- _] [=]|].
  destruct (jwt_verify _ SECRET_KEY now); [|by intros [= <- _] [=]].
  intros [= <- _]. simpl. by intros [? _]%find_Some_inv.
Qed.

(** The three things a resolver can leave behind: the state as it was, the
    vault with one item appended for the user of the context, or the vault
    with the first item of some id published. *)
Lemma resolve_state (op : Operation) (context : Context) (now : Z)
    (db : Db) :
  snd (resolve op context now db) = db \/
  (exists (u : User.t) (content : string) (isPublic : bool),
     user context = Some u /\
     snd (resolve op context now db) =
       {| users := users db;
          vault := vault db ++
            [Item.mk (Z.of_nat (length (vault db)) + 1) (User.id u)
               content isPublic] |}) \/
  (exists (id : string) (k : nat) (item : Item.t),
     list_find (fun i => parseInt id = Some (Item.id i)) (vault db)
       = Some (k, item) /\
     snd (resolve op context now db) =
       {| users := users db; vault := <[k := publish item]> (vault db) |}).
Proof.
  destruct (resolvers_keep_users db) as (Hlogin & Hlist & _).
  destruct op as [username password| | |searchTerm|content isPublic|id];
    unfold resolve, bind.
  - left. specialize (Hlogin username password now).
    by destruct (login username password now db) as [[a|e] db1].
  - left. specialize (Hlist context).
    by destruct (vaultItems context db) as [[a|e] db1].
  - by left.
  - by left.
  - unfold createVaultItem. destruct (user context) as [u|] eqn:Hu.
    + right. left. by exists u, content, isPublic.
    + by left.
  - unfold makeVaultItemPublic, bind, get_vault.
    destruct (user context) as [u|]; [|by left]. simpl.
    destruct (list_find _ (vault db)) as [[k item]|] eqn:Hfind; [|by left].
    right. right. by exists id, k, item.
Qed.

Lemma graphql_state (req : Request) (op : Operation) (now : Z) (db : Db) :
  snd (graphql req op now db) = db \/
  (exists (u : User.t) (content : string) (isPublic : bool),
     u ∈ users db /\
     snd (graphql req op now db) =
       {| users := users db;
          vault := vault db ++
            [Item.mk (Z.of_nat (length (vault db)) + 1) (User.id u)
               content isPublic] |}) \/
  (exists (id : string) (k : nat) (item : Item.t),
     list_find (fun i => parseInt id = Some (Item.id i)) (vault db)
       = Some (k, item) /\
     snd (graphql req op now db) =
       {| users := users db; vault := <[k := publish item]> (vault db) |}).
Proof.
  destruct (authMiddleware_returns req now db) as [context Hctx].
  unfold graphql, bind. rewrite Hctx.
  destruct (resolve_state op context now db)
    as [Hs|[(u & content & isPublic & Hu & Hs)|Hs]].
  - by left.
  - right. left. exists u, content, isPublic.
    split; [by eapply authMiddleware_user_in | done].
  - by right; right.
Qed.

(** X12. In every state the program reaches the item in slot [k] of the
    vault has id [k + 1], so no two items share an id. *)
Theorem reachable_numbered (db : Db) :
  reachable db ->
  numbered (vault db) /\ NoDup (Item.id <$> vault db).
Proof.
  intros Hreach. assert (Hnum : numbered (vault db)).
  { induction Hreach as [|db req op now _ IH].
    - intros [|[|[|[|k]]]] i; simpl; by intros [= <-].
    - destruct (graphql_state req op now db)
        as [->|[(u & c & p & _ & ->)|(id & k & item & Hfind & ->)]]; simpl.
      + done.
      + by apply numbered_snoc.
      + apply list_find_Some in Hfind as (Hk & _).
        by apply numbered_publish. }
  split; [done | by apply numbered_NoDup].
Qed.

(** X13. In every state the program reaches [users] is the seeded array
    and the owner of every item is the id of one of its users. *)
Theorem reachable_owners_exist (db : Db) :
  reachable db ->
  users db = seed_users /\ owners_exist db.
Proof.
  induction 1 as [|db req op now _ [IHu IHo]].
  - split; [done|]. intros i. simpl. unfold seed_vault, seed_users.
    rewrite !elem_of_cons, elem_of_nil.
    intros [->|[->|[->|[->|[]]]]]; simpl;
      [ exists (User.mk 1 "stewie" ADMIN_PASSWORD "admin")
      | exists (User.mk 2 "admin" "admin" "admiin")
      | exists (User.mk 1 "stewie" ADMIN_PASSWORD "admin")
      | exists (User.mk 1 "stewie" ADMIN_PASSWORD "admin") ];
      (split; [rewrite !elem_of_cons; auto | done]).
  - destruct (graphql_state req op now db)
      as [->|[(u & c & p & Hu & ->)|(id & k & item & Hfind & ->)]]; simpl.
    + done.
    + split; [done|]. intros i. simpl.
      rewrite elem_of_app, list_elem_of_singleton.
      intros [Hi| ->]; [by apply IHo | by exists u].
    + split; [done|]. intros i. simpl.
      apply list_find_Some in Hfind as (Hk & _).
      intros [j Hj]%list_elem_of_lookup_1.
      apply list_lookup_insert_Some in Hj as [(-> & <- & _)|[_ Hj]].
      * apply (IHo item). by eapply list_elem_of_lookup_2.
      * apply (IHo i). by eapply list_elem_of_lookup_2.
Qed.

(** One field: [users] is not written, the vault gets at most one item
    longer, and that only for [createVaultItem], and nothing in it is
    lost. *)
Lemma resolve_grows (op : Operation) (context : Context) (now : Z)
    (db : Db) :
  users (snd (resolve op context now db)) = users db /\
  (length (vault (snd (resolve op context now db)))
   <= length (vault db) + (if is_creation op then 1 else 0))%nat /\
  (is_Some (user context) ->
   length (vault (snd (resolve op context now db)))
   = (length (vault db) + (if is_creation op then 1 else 0))%nat) /\
  grows (vault db) (vault (snd (resolve op context now db))).
Proof.
  destruct (resolvers_keep_users db) as (Hlogin & Hlist & _).
  destruct op as [username password| | |searchTerm|content isPublic|id];
    unfold resolve, bind; simpl.
  - specialize (Hlogin username password now).
    destruct (login username password now db) as [[a|e] db1];
      simpl in *; subst db1;
      (split_and!; [done | lia | intros; lia | apply grows_refl]).
  - specialize (Hlist context).
    destruct (vaultItems context db) as [[a|e] db1];
      simpl in *; subst db1;
      (split_and!; [done | lia | intros; lia | apply grows_refl]).
  - split_and!; [done | lia | intros; lia | apply grows_refl].
  - split_and!; [done | lia | intros; lia | apply grows_refl].
  - unfold createVaultItem. destruct (user context) as [u|] eqn:Hu; simpl.
    + split_and!; [done | rewrite length_app; simpl; lia
                  | intros; rewrite length_app; simpl; lia
                  | apply grows_snoc].
    + split_and!; [done | lia | by intros [? [=]] | apply grows_refl].
  - unfold makeVaultItemPublic, bind, get_vault.
    destruct (user context) as [u|]; simpl;
      [|split_and!; [done | lia | by intros [? [=]] | apply grows_refl]].
    destruct (list_find _ (vault db)) as [[k item]|] eqn:Hfind; simpl;
      [|split_and!; [done | lia | intros; lia | apply grows_refl]].
    apply list_find_Some in Hfind as (Hk & _).
    split_and!; [done | rewrite length_insert; lia
                | intros; rewrite length_insert; lia
                | by apply grows_publish].
Qed.

Lemma graphql_step_grows (req : Request) (op : Operation) (now : Z)
    (db : Db) :
  users (snd (graphql req op now db)) = users db /\
  grows (vault db) (vault (snd (graphql req op now db))).
Proof.
  destruct (authMiddleware_returns req now db) as [context Hctx].
  unfold graphql, bind. rewrite Hctx.
  by destruct (resolve_grows op context now db) as (? & _ & _ & ?).
Qed.

Lemma resolve_fields_grows (ops : list Operation) (context : Context)
    (now : Z) (db : Db) :
  users (snd (resolve_fields ops context now db)) = users db /\
  (length (vault (snd (resolve_fields ops context now db)))
   <= length (vault db) + length (filter is_creation ops))%nat /\
  (is_Some (user context) ->
   length (vault (snd (resolve_fields ops context now db)))
   = (length (vault db) + length (filter is_creation ops))%nat) /\
  grows (vault db) (vault (snd (resolve_fields ops context now db))).
Proof.
  revert db. induction ops as [|op ops IH]; intros db; simpl.
  - split_and!; [done | lia | intros; lia | apply grows_refl].
  - destruct (resolve_grows op context now db) as (Hu & Hle & Heq & Hg).
    destruct (resolve op context now db) as [r db1]. simpl in *.
    destruct (IH db1) as (Hu' & Hle' & Heq' & Hg').
    destruct (resolve_fields ops context now db1) as [rs db2]. simpl in *.
    rewrite filter_cons.
    split_and!.
    + congruence.
    + destruct (is_creation op); simpl in *; lia.
    + intros Hsome. specialize (Heq Hsome). specialize (Heq' Hsome).
      destruct (is_creation op); simpl in *; lia.
    + by eapply grows_trans.
Qed.

(** X14. Whatever the request, whatever fields it selects and from any
    state: [users] is not written; the vault gets longer by at most the
    number of [createVaultItem] fields selected, and by exactly that
    number when the request carries a session; and no item of the vault is
    removed, renumbered, given another owner or other content, or made
    private again. *)
Theorem graphql_grows (req : Request) (ops : list Operation) (now : Z)
    (db : Db) :
  users (snd (graphql_request req ops now db)) = users db /\
  (length (vault (snd (graphql_request req ops now db)))
   <= length (vault db) + length (filter is_creation ops))%nat /\
  (forall context : Context,
     authMiddleware req now db = (Ok context, db) ->
     is_Some (user context) ->
     length (vault (snd (graphql_request req ops now db)))
     = (length (vault db) + length (filter is_creation ops))%nat) /\
  grows (vault db) (vault (snd (graphql_request req ops now db))).
Proof.
  destruct (authMiddleware_returns req now db) as [context Hctx].
  unfold graphql_request, bind. rewrite Hctx.
  destruct (resolve_fields_grows ops context now db)
    as (Hu & Hle & Heq & Hg).
  destruct (resolve_fields ops context now db) as [rs db']. simpl in *.
  split_and!; [done | done | | done].
  by intros context' [= <-].
Qed.

(** X15. In every state the program reaches the four seeded items are
    still in their slots with their ids, owners and contents, and the
    public one is still public; the flag is still the content of slot 0,
    owned by user 1. *)
Theorem reachable_keeps_seed (db : Db) :
  reachable db ->
  grows seed_vault (vault db) /\
  exists i : Item.t,
    vault db !! 0%nat = Some i /\
    Item.id i = 1%Z /\ Item.ownerId i = 1%Z /\ Item.content i = FLAG.
Proof.
  intros Hreach. assert (Hg : grows seed_vault (vault db)).
  { induction Hreach as [|db req op now _ IH]; [apply grows_refl|].
    eapply grows_trans; [exact IH | apply graphql_step_grows]. }
  split; [done|].
  destruct (proj2 Hg 0%nat (Item.mk 1 1 FLAG false) eq_refl)
    as (i & Hi & Hid & Ho & Hc & _).
  by exists i.
Qed.

Lemma authMiddleware_same_users (req : Request) (now : Z) (db1 db2 : Db) :
  users db1 = users db2 ->
  fst (authMiddleware req now db1) = fst (authMiddleware req now db2).
Proof.
  intros Hu. unfold authMiddleware, try_catch, bind, lift, get_users, ret.
  destruct (decide (default "" (authorization req) = "")); [done|].
  destruct (jwt_verify _ SECRET_KEY now); [|done]. simpl. by rewrite Hu.
Qed.

Lemma resolve_fields_reachable (req : Request) (ops : list Operation)
    (context : Context) (now : Z) (db : Db) :
  authMiddleware req now db = (Ok context, db) ->
  reachable db ->
  reachable (snd (resolve_fields ops context now db)).
Proof.
  revert db. induction ops as [|op ops IH]; intros db Hctx Hreach; [done|].
  simpl.
  assert (Hstep : snd (graphql req op now db)
                  = snd (resolve op context now db)).
  { unfold graphql, bind. by rewrite Hctx. }
  pose proof (reachable_step db req op now Hreach) as Hreach1.
  rewrite Hstep in Hreach1.
  destruct (resolve_grows op context now db) as (Hu & _).
  destruct (resolve op context now db) as [r db1]. simpl in *.
  assert (Hctx1 : authMiddleware req now db1 = (Ok context, db1)).
  { destruct (authMiddleware_returns req now db1) as [context1 Hctx1].
    pose proof (authMiddleware_same_users req now db1 db Hu) as Hfst.
    rewrite Hctx1, Hctx in Hfst. simpl in Hfst. by injection Hfst as ->. }
  specialize (IH db1 Hctx1 Hreach1).
  by destruct (resolve_fields ops context now db1) as [rs db2].
Qed.

(** X20. A request that selects several fields leaves the program in a
    state that single-field requests also reach: what holds in every
    reachable state holds after such a request too. *)
Theorem reachable_after_request (req : Request) (ops : list Operation)
    (now : Z) (db : Db) :
  reachable db ->
  reachable (snd (graphql_request req ops now db)).
Proof.
  intros Hreach.
  destruct (authMiddleware_returns req now db) as [context Hctx].
  pose proof (resolve_fields_reachable req ops context now db Hctx Hreach)
    as Hfields.
  unfold graphql_request, bind. rewrite Hctx.
  by destruct (resolve_fields ops context now db) as [rs db'].
Qed.
End Requests.

(** ** Requests with and without a session *)

Section Gate.
Context `{Env, Jwt}.

Lemma authMiddleware_anonymous (req : Request) (now : Z) (db : Db) :
  (authorization req = None \/
   authorization req = Some "" \/
   exists (cred : string) (e : exn),
     authorization req = Some cred /\
     jwt_verify (replace "Bearer " "" cred) SECRET_KEY now = Throw e) ->
  authMiddleware req now db = (Ok anonymous, db).
Proof.
  unfold authMiddleware, try_catch, bind, lift, get_users, ret, anonymous.
  intros [->|[->|(cred & e & -> & Hv)]]; [done..|]. simpl.
  destruct (decide (cred = "")); [done|]. by rewrite Hv.
Qed.

(** X16. A request that carries no credential, an empty one, or one that
    [jwt.verify] throws on gets "Not authenticated" from [vaultItems],
    [createVaultItem] and [makeVaultItemPublic], and the state stays as it
    was: a bad token is no error of its own and never a session. *)
Theorem graphql_needs_session (req : Request) (now : Z) (db : Db) :
  (authorization req = None \/
   authorization req = Some "" \/
   exists (cred : string) (e : exn),
     authorization req = Some cred /\
     jwt_verify (replace "Bearer " "" cred) SECRET_KEY now = Throw e) ->
  graphql req VaultItems now db = (Throw NotAuthenticated, db) /\
  (forall content isPublic,
     graphql req (CreateVaultItem content isPublic) now db
       = (Throw NotAuthenticated, db)) /\
  (forall id,
     graphql req (MakeVaultItemPublic id) now db
       = (Throw NotAuthenticated, db)).
Proof.
  intros Hbad. unfold graphql, bind.
  rewrite (authMiddleware_anonymous req now db Hbad).
  by split_and!.
Qed.

(** X17. [publicVaultItems] and [login] do not look at the credential: two
    requests with different credentials get the same answer from them, and
    for [publicVaultItems] that answer is always the list of the public
    items. [searchVault] always answers with a list, never with an
    error. *)
Theorem graphql_open_fields (req req' : Request) (now : Z) (db : Db) :
  graphql req PublicVaultItems now db
    = (Ok (VaultItemList
             (filter (fun i => Item.isPublic i = true) (vault db))), db) /\
  (forall username password,
     graphql req (Login username password) now db
       = graphql req' (Login username password) now db) /\
  (forall searchTerm, exists found,
     graphql req (SearchVault searchTerm) now db
       = (Ok (VaultItemList found), db)).
Proof.
  destruct (authMiddleware_returns req now db) as [context Hctx].
  destruct (authMiddleware_returns req' now db) as [context' Hctx'].
  unfold graphql, bind. rewrite Hctx, Hctx'. split_and!.
  - unfold resolve, publicVaultItems, bind, get_vault, ret.
    do 3 f_equal. apply list_filter_iff. intros i. apply Is_true_true.
  - done.
  - intros searchTerm. by eexists.
Qed.

(** X18. The role that counts is the one in [users], not the one in the
    token: for a verified token whose [userId] is that of a user who is
    not an admin, [vaultItems] returns the filtered list whatever the
    token says its role is. *)
Theorem graphql_role_from_store (req : Request) (now : Z) (db : Db)
    (cred : string) (decoded : Decoded.t) (u : User.t) :
  authorization req = Some cred ->
  cred <> "" ->
  jwt_verify (replace "Bearer " "" cred) SECRET_KEY now = Ok decoded ->
  Decoded.userId decoded = JNumber (User.id u) ->
  find (fun u' => User.id u' = User.id u) (users db) = Some u ->
  User.role u <> "admin" ->
  graphql req VaultItems now db
    = (Ok (VaultItemList
             (filter (fun i => Item.ownerId i = User.id u \/
                               Item.isPublic i = true) (vault db))), db).
Proof.
  intros Hreq Hne Hv Hid Hfind Hrole. unfold graphql, bind.
  rewrite (authMiddleware_verified req now db cred decoded (User.id u)
             Hreq Hne Hv Hid), Hfind.
  unfold resolve, vaultItems, bind, get_vault, ret. simpl.
  destruct (decide (User.role u = "admin")); [done|].
  do 3 f_equal. apply list_filter_iff. intros i.
  by rewrite Is_true_true.
Qed.

(** X19. A whole session: a seeded user logs in through the endpoint
    without any credential, presents the token as a bearer credential
    within the hour, and creates an item; the item is appended with that
    user as owner and the length of the vault plus one as id. *)
Theorem graphql_session_creates (u : User.t) (now now' : Z) (db : Db)
    (content : string) (isPublic : bool) :
  jwt_round_trip SECRET_KEY ->
  users db = seed_users ->
  u ∈ seed_users ->
  (now' / 1000 < now / 1000 + 3600)%Z ->
  exists tok : string,
    graphql {| authorization := None |}
      (Login (User.username u) (User.password u)) now db
      = (Ok (AuthPayloadValue
               {| AuthPayload.token := tok; AuthPayload.user := u |}), db) /\
    let newItem :=
      Item.mk (Z.of_nat (length (vault db)) + 1) (User.id u)
        content isPublic in
    graphql {| authorization := Some ("Bearer " +:+ tok) |}
      (CreateVaultItem content isPublic) now' db
      = (Ok (VaultItemValue newItem),
         {| users := users db; vault := vault db ++ [newItem] |}).
Proof.
  intros Hjwt Husers Hu Hfresh.
  destruct (login_issue_verify u now now' db Hjwt Husers Hu Hfresh)
    as (tok & Hlogin & _ & Hauth).
  exists tok. split.
  - unfold graphql, bind.
    rewrite (authMiddleware_anonymous {| authorization := None |} now db)
      by by left.
    unfold resolve, bind. by rewrite Hlogin.
  - simpl. unfold graphql, bind. by rewrite Hauth.
Qed.
End Gate.

(** ** The further properties at work on the seeded state *)

Module MoreInstances.
Import ToyJwt ToySession.

Lemma users_db0 (u : User.t) :
  u ∈ users db0 -> u = stewie \/ u = admin \/ u = user1.
Proof.
  unfold db0, seed, seed_users. simpl.
  rewrite !elem_of_cons, elem_of_nil. tauto.
Qed.

Lemma numbered_db0 : numbered (vault db0).
Proof. intros [|[|[|[|k]]]] i; simpl; by intros [= <-]. Qed.

Lemma login_rejects_mismatch_seed :
  (forall u, u ∈ users db0 ->
     ~ (User.username u = "user1" /\ User.password u = "wrongpass")) /\
  @login env jwt "user1" "wrongpass" 5000 db0
    = (Throw InvalidCredentials, db0).
Proof.
  assert (Hnone : forall u, u ∈ users db0 ->
            ~ (User.username u = "user1" /\ User.password u = "wrongpass")).
  { intros u [-> | [-> | ->]]%users_db0 [Hn Hp]; discriminate. }
  split; [exact Hnone|].
  exact (@login_rejects_mismatch env jwt "user1" "wrongpass" 5000 db0 Hnone).
Defined.

Lemma login_sound_seed :
  let a := {| AuthPayload.token := user1_token; AuthPayload.user := user1 |} in
  @login env jwt "user1" "admin123" 5000 db0 = (Ok a, db0) /\
  AuthPayload.user a ∈ users db0 /\
  User.username (AuthPayload.user a) = "user1" /\
  User.password (AuthPayload.user a) = "admin123".
Proof.
  intros a.
  assert (Hlogin : @login env jwt "user1" "admin123" 5000 db0 = (Ok a, db0))
    by reflexivity.
  split; [exact Hlogin|].
  destruct (@login_sound env jwt "user1" "admin123" 5000 db0 db0 a Hlogin)
    as (_ & Hin & Hn & Hp & _).
  by split_and!.
Defined.

Lemma authMiddleware_sound_seed :
  @authMiddleware env jwt (bearer user1_token) 5000 db0 = (Ok as_user1, db0) /\
  user as_user1 = Some user1 /\
  user1 ∈ users db0 /\
  exists (cred : string) (decoded : Decoded.t),
    authorization (bearer user1_token) = Some cred /\
    cred <> "" /\
    @jwt_verify jwt (replace "Bearer " "" cred) (@SECRET_KEY env) 5000
      = Ok decoded /\
    Decoded.userId decoded = JNumber (User.id user1).
Proof.
  split; [reflexivity|]. split; [reflexivity|].
  apply (@authMiddleware_sound env jwt (bearer user1_token) 5000 db0 db0
           as_user1 user1); reflexivity.
Defined.

Lemma authMiddleware_bearer_optional_seed :
  user1_token <> "" /\
  includes user1_token "Bearer " = false /\
  @authMiddleware env jwt (bearer user1_token) 5000 db0
    = @authMiddleware env jwt {| authorization := Some user1_token |}
        5000 db0.
Proof.
  split; [discriminate|]. split; [reflexivity|].
  apply (@authMiddleware_bearer_optional env jwt user1_token 5000 db0);
    [discriminate | reflexivity].
Defined.

Lemma searchVault_within_vaultItems_seed :
  user as_user1 = Some user1 /\
  exists found listed : list Item.t,
    searchVault "note" as_user1 db0 = (Ok found, db0) /\
    vaultItems as_user1 db0 = (Ok listed, db0) /\
    forall i, i ∈ found -> i ∈ listed.
Proof.
  split; [reflexivity|].
  apply (searchVault_within_vaultItems "note" as_user1 user1 db0).
  reflexivity.
Defined.

Lemma vaultItems_is_empty_search_seed :
  user as_user1 = Some user1 /\
  User.role user1 <> "admin" /\
  vaultItems as_user1 db0 = searchVault "" as_user1 db0.
Proof.
  split; [reflexivity|]. split; [discriminate|].
  apply (vaultItems_is_empty_search as_user1 user1 db0);
    [reflexivity | discriminate].
Defined.

Lemma searchVault_anonymous_is_public_seed :
  user anonymous = None /\
  exists public : list Item.t,
    publicVaultItems db0 = (Ok public, db0) /\
    searchVault "note" anonymous db0
      = (Ok (filter (fun i => includes (Item.content i) "note" = true)
               public), db0) /\
    searchVault "" anonymous db0 = (Ok public, db0).
Proof.
  split; [reflexivity|].
  apply (searchVault_anonymous_is_public "note" anonymous db0). reflexivity.
Defined.

Lemma public_item_seen_by_all_seed :
  let i := Item.mk 3 1 "Public note" true in
  i ∈ vault db0 /\
  Item.isPublic i = true /\
  exists public, publicVaultItems db0 = (Ok public, db0) /\ i ∈ public.
Proof.
  intros i. assert (Hi : i ∈ vault db0) by repeat constructor.
  split; [exact Hi|]. split; [reflexivity|].
  exact (proj1 (public_item_seen_by_all i db0 Hi eq_refl)).
Defined.

Lemma makeVaultItemPublic_idempotent_seed :
  let item' := Item.mk 2 2 "Nothing to see here" true in
  let db' := {| users := users db0;
                vault := <[1%nat := item']> (vault db0) |} in
  makeVaultItemPublic "2" as_user1 db0 = (Ok item', db') /\
  makeVaultItemPublic "2" as_user1 db' = (Ok item', db').
Proof.
  intros item' db'. split; [reflexivity|].
  apply (makeVaultItemPublic_idempotent "2" as_user1 db0 db' item').
  reflexivity.
Defined.

Lemma createVaultItem_then_read_seed :
  let newItem := Item.mk 5 3 "mine" false in
  let db' := {| users := users db0; vault := vault db0 ++ [newItem] |} in
  user as_user1 = Some user1 /\
  createVaultItem "mine" false as_user1 db0 = (Ok newItem, db') /\
  (exists listed,
     vaultItems as_user1 db' = (Ok listed, db') /\ newItem ∈ listed) /\
  (exists found,
     searchVault "mine" as_user1 db' = (Ok found, db') /\ newItem ∈ found).
Proof.
  intros newItem db'.
  assert (Hc : createVaultItem "mine" false as_user1 db0 = (Ok newItem, db'))
    by reflexivity.
  split; [reflexivity|]. split; [exact Hc|].
  destruct (createVaultItem_then_read "mine" false as_user1 user1 db0 db'
              newItem eq_refl Hc) as (Hl & Hf & _).
  by split.
Defined.

Lemma makeVaultItemPublic_by_number_seed :
  let id := utf8 [239; 187; 191] +:+ "+0x2" in
  numbered (vault db0) /\
  is_Some (user as_user1) /\
  reads_as id 2 /\
  (1 <= 2 <= Z.of_nat (length (vault db0)))%Z /\
  (exists item : Item.t,
     vault db0 !! Z.to_nat (2 - 1) = Some item /\
     makeVaultItemPublic id as_user1 db0 =
       (Ok (publish item),
        {| users := users db0;
           vault := <[Z.to_nat (2 - 1) := publish item]> (vault db0) |})) /\
  reads_as "7" 7 /\
  makeVaultItemPublic "7" as_user1 db0 = (Throw ItemNotFound, db0) /\
  (forall n : Z, ~ reads_as "0x" n) /\
  makeVaultItemPublic "0x" as_user1 db0 = (Throw ItemNotFound, db0).
Proof.
  intros id.
  assert (Hu : is_Some (user as_user1)) by by eexists.
  assert (H2 : reads_as id 2) by by apply parseInt_reads_as.
  assert (H7 : reads_as "7" 7) by by apply parseInt_reads_as.
  assert (Hx : forall n : Z, ~ reads_as "0x" n) by by apply parseInt_NaN.
  assert (Hr : (1 <= 2 <= Z.of_nat (length (vault db0)))%Z)
    by (split; discriminate).
  split; [exact numbered_db0|]. split; [exact Hu|]. split; [exact H2|].
  split; [exact Hr|]. split; [|split; [exact H7|split; [|split; [exact Hx|]]]].
  - exact (proj1 (makeVaultItemPublic_by_number id as_user1 db0
                    numbered_db0 Hu) 2%Z H2 Hr).
  - apply (proj2 (makeVaultItemPublic_by_number "7" as_user1 db0
                    numbered_db0 Hu)).
    right. exists 7%Z. split; [exact H7|]. right. reflexivity.
  - apply (proj2 (makeVaultItemPublic_by_number "0x" as_user1 db0
                    numbered_db0 Hu)).
    left. exact Hx.
Defined.

Lemma reachable_db1 : @reachable env jwt db1.
Proof. apply reachable_step, reachable_seed. Qed.

Lemma reachable_numbered_seed :
  @reachable env jwt db1 /\
  numbered (vault db1) /\ NoDup (Item.id <$> vault db1).
Proof.
  split; [exact reachable_db1|].
  exact (@reachable_numbered env jwt db1 reachable_db1).
Defined.

Lemma reachable_owners_exist_seed :
  @reachable env jwt db1 /\
  users db1 = @seed_users env /\ owners_exist db1.
Proof.
  split; [exact reachable_db1|].
  exact (@reachable_owners_exist env jwt db1 reachable_db1).
Defined.

Lemma reachable_keeps_seed_db1 :
  @reachable env jwt db1 /\
  grows (@seed_vault env) (vault db1) /\
  exists i : Item.t,
    vault db1 !! 0%nat = Some i /\
    Item.id i = 1%Z /\ Item.ownerId i = 1%Z /\ Item.content i = @FLAG env.
Proof.
  split; [exact reachable_db1|].
  exact (@reachable_keeps_seed env jwt db1 reachable_db1).
Defined.

Lemma graphql_needs_session_seed :
  authorization {| authorization := Some "Bearer forged" |}
    = Some "Bearer forged" /\
  @jwt_verify jwt (replace "Bearer " "" "Bearer forged") (@SECRET_KEY env) 5000
    = Throw (Error "invalid signature") /\
  @graphql env jwt {| authorization := Some "Bearer forged" |}
    (CreateVaultItem "mine" true) 5000 db0 = (Throw NotAuthenticated, db0).
Proof.
  split; [reflexivity|]. split; [reflexivity|].
  assert (Hbad :
    authorization {| authorization := Some "Bearer forged" |} = None \/
    authorization {| authorization := Some "Bearer forged" |} = Some "" \/
    exists (cred : string) (e : exn),
      authorization {| authorization := Some "Bearer forged" |} = Some cred /\
      @jwt_verify jwt (replace "Bearer " "" cred) (@SECRET_KEY env) 5000
        = Throw e).
  { right. right. exists "Bearer forged", (Error "invalid signature").
    split; reflexivity. }
  apply (proj1 (proj2
    (@graphql_needs_session env jwt
       {| authorization := Some "Bearer forged" |} 5000 db0 Hbad))).
Defined.

Lemma graphql_role_from_store_seed :
  authorization (bearer relabelled_token)
    = Some ("Bearer " +:+ relabelled_token) /\
  (exists decoded,
     @jwt_verify jwt
       (replace "Bearer " "" ("Bearer " +:+ relabelled_token))
       (@SECRET_KEY env) 5000 = Ok decoded /\
     Decoded.userId decoded = JNumber 3 /\
     Decoded.role decoded = JString "admin") /\
  User.role user1 <> "admin" /\
  @graphql env jwt (bearer relabelled_token) VaultItems 5000 db0
    = (Ok (VaultItemList
             (filter (fun i => Item.ownerId i = User.id user1 \/
                               Item.isPublic i = true) (vault db0))), db0).
Proof.
  split; [reflexivity|]. split; [by eexists|]. split; [discriminate|].
  eapply (@graphql_role_from_store env jwt (bearer relabelled_token) 5000
            db0 ("Bearer " +:+ relabelled_token) _ user1);
    [reflexivity | discriminate | reflexivity | reflexivity | reflexivity
    | discriminate].
Defined.

Lemma graphql_session_creates_seed :
  @jwt_round_trip jwt (@SECRET_KEY env) /\
  users db0 = @seed_users env /\
  user1 ∈ @seed_users env /\
  (5000 / 1000 < 5000 / 1000 + 3600)%Z /\
  exists tok : string,
    @graphql env jwt {| authorization := None |}
      (Login (User.username user1) (User.password user1)) 5000 db0
      = (Ok (AuthPayloadValue
               {| AuthPayload.token := tok; AuthPayload.user := user1 |}),
         db0) /\
    let newItem :=
      Item.mk (Z.of_nat (length (vault db0)) + 1) (User.id user1)
        "mine" false in
    @graphql env jwt {| authorization := Some ("Bearer " +:+ tok) |}
      (CreateVaultItem "mine" false) 5000 db0
      = (Ok (VaultItemValue newItem),
         {| users := users db0; vault := vault db0 ++ [newItem] |}).
Proof.
  assert (Hu : user1 ∈ @seed_users env) by repeat constructor.
  split; [apply ToyJwtFacts.round_trip|]. split; [reflexivity|].
  split; [exact Hu|]. split; [reflexivity|].
  apply (@graphql_session_creates env jwt user1 5000 5000 db0 "mine" false);
    [apply ToyJwtFacts.round_trip | reflexivity | exact Hu | reflexivity].
Defined.

Lemma graphql_grows_two_creations :
  let ops := [CreateVaultItem "a" false; CreateVaultItem "b" true] in
  @authMiddleware env jwt (bearer user1_token) 5000 db0
    = (Ok as_user1, db0) /\
  is_Some (user as_user1) /\
  length (vault (snd (@graphql_request env jwt (bearer user1_token) ops
                        5000 db0)))
  = (length (vault db0) + length (filter is_creation ops))%nat /\
  length (vault (snd (@graphql_request env jwt (bearer user1_token) ops
                        5000 db0))) = 6%nat.
Proof.
  intros ops.
  assert (Hctx : @authMiddleware env jwt (bearer user1_token) 5000 db0
                 = (Ok as_user1, db0)) by reflexivity.
  assert (Hu : is_Some (user as_user1)) by by eexists.
  split; [exact Hctx|]. split; [exact Hu|]. split; [|reflexivity].
  exact (proj1 (proj2 (proj2
           (@graphql_grows env jwt (bearer user1_token) ops 5000 db0)))
           as_user1 Hctx Hu).
Defined.

Lemma reachable_after_request_seed :
  let ops := [CreateVaultItem "a" false; MakeVaultItemPublic "5";
              CreateVaultItem "b" true] in
  @reachable env jwt db0 /\
  @reachable env jwt
    (snd (@graphql_request env jwt (bearer user1_token) ops 5000 db0)).
Proof.
  intros ops. split; [apply reachable_seed|].
  apply (@reachable_after_request env jwt (bearer user1_token) ops 5000 db0).
  apply reachable_seed.
Defined.
End MoreInstances.
